(** * Exepose: tools/monitor_fuzzing.py

    A shallow embedding of the fuzzing monitor [FuzzerMonitor] and the
    properties of its status-file reader, its stop decision, its report
    rows and its scheduling loop.

    Text is modelled on the code points below 256: an [ascii] with code [n]
    stands for the character U+00[n].  On that range the character classes
    of [str.isspace], [str.isdigit] and of the integer conversion [int] are
    those of CPython.  The interpreter's optional cap on the number of
    digits [int] accepts is not modelled. *)

From Stdlib Require Import ZArith NArith Ascii String List Bool Lia.
From Stdlib Require DecimalString DecimalN.
From stdpp Require Import base option strings gmap list.

Local Open Scope string_scope.
Local Open Scope Z_scope.

(** ** Exceptions and results *)

(** The exception classes the monitor can meet; all of them derive from
    [Exception]. *)
Inductive exn : Type :=
| FileNotFoundError
| PermissionError
| UnicodeDecodeError
| OSError
| ProcessLookupError
| CalledProcessError (status : Z)
| ValueError
| TypeError
| AttributeError
| OverflowError.

Inductive result (A : Type) : Type :=
| Ok (a : A)
| Raise (e : exn).
Arguments Ok {A} a.
Arguments Raise {A} e.

#[global] Instance result_ret : MRet result := fun A a => Ok a.
#[global] Instance result_bind : MBind result := fun A B f m =>
  match m with
  | Ok a => f a
  | Raise e => Raise e
  end.
#[global] Instance result_fmap : FMap result := fun A B f m =>
  match m with
  | Ok a => Ok (f a)
  | Raise e => Raise e
  end.

(** ** Python text primitives *)

Module Text.

Definition ord (c : ascii) : N := N_of_ascii c.

Definition between (lo hi n : N) : bool := ((lo <=? n) && (n <=? hi))%N.

(** [str.isspace] on one character: TAB..CR, FS..US, SPACE, NEL, NBSP. *)
Definition isspace (c : ascii) : bool :=
  between 9 13 (ord c) || between 28 32 (ord c)
  || (ord c =? 133)%N || (ord c =? 160)%N.

(** [str.isdigit] on one character: the decimal digits and the superscript
    digits U+00B2, U+00B3 and U+00B9. *)
Definition isdigit_char (c : ascii) : bool :=
  between 48 57 (ord c)
  || (ord c =? 178)%N || (ord c =? 179)%N || (ord c =? 185)%N.

(** The decimal value of a character, as [int] reads it. *)
Definition digit_val (c : ascii) : option Z :=
  if between 48 57 (ord c) then Some (Z.of_N (ord c) - 48) else None.

(** The blanks [int] skips around a literal: the C locale's white space
    below 127 and the white space above it. *)
Definition int_space (c : ascii) : bool :=
  between 9 13 (ord c) || (ord c =? 32)%N
  || (ord c =? 133)%N || (ord c =? 160)%N.

Definition is_empty (s : string) : bool :=
  match s with EmptyString => true | String _ _ => false end.

Fixpoint lstrip_with (sp : ascii -> bool) (s : string) : string :=
  match s with
  | EmptyString => EmptyString
  | String c r => if sp c then lstrip_with sp r else s
  end.

Fixpoint rstrip_with (sp : ascii -> bool) (s : string) : string :=
  match s with
  | EmptyString => EmptyString
  | String c r =>
      let r' := rstrip_with sp r in
      if sp c && is_empty r' then EmptyString else String c r'
  end.

Definition strip_with (sp : ascii -> bool) (s : string) : string :=
  rstrip_with sp (lstrip_with sp s).

(** [s.strip()] *)
Definition strip (s : string) : string := strip_with isspace s.

(** [c in s] for a one-character [c] *)
Fixpoint contains (c : ascii) (s : string) : bool :=
  match s with
  | EmptyString => false
  | String d r => Ascii.eqb d c || contains c r
  end.

(** The text before and after the first [sep], when there is one. *)
Fixpoint partition (sep : ascii) (s : string) : option (string * string) :=
  match s with
  | EmptyString => None
  | String c r =>
      if Ascii.eqb c sep then Some (EmptyString, r)
      else match partition sep r with
           | Some (a, b) => Some (String c a, b)
           | None => None
           end
  end.

(** [s.split(sep, 1)] for a one-character [sep] *)
Definition split1 (sep : ascii) (s : string) : list string :=
  match partition sep s with
  | Some (a, b) => [a; b]
  | None => [s]
  end.

(** [a, b = l]: unpacking into two names *)
Definition unpack2 (l : list string) : result (string * string) :=
  match l with
  | [a; b] => Ok (a, b)
  | _ => Raise ValueError
  end.

Fixpoint all_chars (p : ascii -> bool) (s : string) : bool :=
  match s with
  | EmptyString => true
  | String c r => p c && all_chars p r
  end.

(** [s.isdigit()]: at least one character, and every one a digit. *)
Definition isdigit (s : string) : bool :=
  negb (is_empty s) && all_chars isdigit_char s.

(** The digits of an integer literal after its first digit: digits, each
    optionally preceded by one underscore. *)
Fixpoint int_body (acc : Z) (s : string) : option Z :=
  match s with
  | EmptyString => Some acc
  | String c r =>
      match digit_val c with
      | Some d => int_body (10 * acc + d) r
      | None =>
          if Ascii.eqb c "_" then
            match r with
            | String c' r' =>
                match digit_val c' with
                | Some d => int_body (10 * acc + d) r'
                | None => None
                end
            | EmptyString => None
            end
          else None
      end
  end.

Definition int_unsigned (s : string) : option Z :=
  match s with
  | String c r =>
      match digit_val c with
      | Some d => int_body d r
      | None => None
      end
  | EmptyString => None
  end.

(** [int(s)] for a string [s], base 10: blanks, an optional sign, the
    digits, blanks.  [None] stands for the [ValueError] it raises. *)
Definition int_of_str (s : string) : option Z :=
  match strip_with int_space s with
  | String c r =>
      if Ascii.eqb c "+" then int_unsigned r
      else if Ascii.eqb c "-" then Z.opp <$> int_unsigned r
      else int_unsigned (String c r)
  | EmptyString => None
  end.

Definition LF : ascii := ascii_of_nat 10.
Definition CR : ascii := ascii_of_nat 13.

(** The lines a text-mode file yields when iterated: the text is cut after
    every line end, and each of the line ends LF, CR and CR LF reaches the
    program as a single LF. *)
Fixpoint readlines (s : string) : list string :=
  match s with
  | EmptyString => []
  | String c r =>
      if Ascii.eqb c LF then String LF EmptyString :: readlines r
      else if Ascii.eqb c CR then
        match r with
        | String c' r' =>
            if Ascii.eqb c' LF then String LF EmptyString :: readlines r'
            else String LF EmptyString :: readlines r
        | EmptyString => [String LF EmptyString]
        end
      else
        match readlines r with
        | [] => [String c EmptyString]
        | l :: ls => String c l :: ls
        end
  end.

(** [s.split()]: the maximal runs of characters that are not white space. *)
Fixpoint words_from (cur : string) (s : string) : list string :=
  match s with
  | EmptyString => if is_empty cur then [] else [cur]
  | String c r =>
      if isspace c
      then (if is_empty cur then words_from EmptyString r
            else cur :: words_from EmptyString r)
      else words_from (cur ++ String c EmptyString) r
  end.

Definition split_ws (s : string) : list string := words_from EmptyString s.

End Text.

Import Text.

(** ** Data model *)

(** A value of the statistics dictionary: an [int] or a [str]. *)
Inductive value : Type :=
| VInt (n : Z)
| VStr (s : string).

#[global] Instance value_eq_dec : EqDecision value.
Proof. solve_decision. Defined.

(** The dictionary [fuzzer_stats]; Python compares dictionaries by their
    entries, as [gmap] does. *)
Abbreviation snapshot := (gmap string value).

(** [int(v)] *)
Definition py_int (v : value) : result Z :=
  match v with
  | VInt n => Ok n
  | VStr s =>
      match int_of_str s with
      | Some n => Ok n
      | None => Raise ValueError
      end
  end.

(** The truth value of [v] *)
Definition truthy (v : value) : bool :=
  match v with
  | VInt n => negb (n =? 0)
  | VStr s => negb (is_empty s)
  end.

(** [d.get(key, dflt)] *)
Definition dict_get (d : snapshot) (key : string) (dflt : value) : value :=
  default dflt (d !! key).

(** [key in d] *)
Definition dict_has (d : snapshot) (key : string) : bool :=
  bool_decide (is_Some (d !! key)).

(** The truth value of [self.last_fuzzer_data]: [None] and the empty
    dictionary are false. *)
Definition dict_truthy (o : option snapshot) : bool :=
  match o with
  | None => false
  | Some d => negb (bool_decide (d = ∅))
  end.

(** The constructor arguments kept for the life of the monitor. *)
Record config : Type := {
  output_dir : string;
  fuzzer_stats_file : string;
  max_time_without_finds : Z;
  check_interval : Z
}.

(** A cell of a report row: the text [N/A] or a number printed with
    thousands separators. *)
Inductive cell : Type :=
| NA
| Grouped (n : Z).

(** The column of the last find: the text [N/A] or a local time. *)
Inductive stamp : Type :=
| StampNA
| StampAt (t : Z).

(** The six columns of a data row; the two times are kept as the clock
    readings that [strftime] prints. *)
Record row : Type := {
  curr_time : Z;
  last_found : stamp;
  corpus : cell;
  crashes : cell;
  hangs : cell;
  execs : cell
}.

Inductive level : Type := DEBUG | INFO | ERROR.

Inductive message : Type :=
| MsgDoesNotExist (dir file : string)
| MsgReadError (dir file : string) (e : exn)
| MsgStopping (pid : Z)
| MsgExiting (time_wo_finds : Z)
| MsgHeader
| MsgRow (r : row)
| MsgUnreadable
| MsgStartup (now : Z) (c : config).

Inductive signal : Type := SIGTERM.

(** An entry of the scheduler's queue.  Every entry of this program runs
    [check_fuzzer_status]. *)
Record event : Type := {
  ev_time : Z;
  ev_priority : Z
}.

(** The mutable state of a run: the attribute [last_fuzzer_data] ([None] of
    Python is [None], the dictionary [d] is [Some d]), the scheduler's queue,
    and what the monitor has done to the outside: the calls to [logging] and
    the signals delivered by [os.kill]. *)
Record world : Type := {
  last_fuzzer_data : option snapshot;
  scheduler : list event;
  logged : list (level * message);
  killed : list (Z * signal)
}.

(** What opening and reading the statistics file does: it raises, or it
    yields the decoded text of the file. *)
Inductive open_outcome : Type :=
| OpenRaises (e : exn)
| Contents (text : string).

(** What [subprocess.check_output] of the process search does: the tool
    cannot be run, or it exits with a status and an output, kept here as the
    text it decodes to. *)
Inductive pgrep_outcome : Type :=
| SearchRaises (e : exn)
| Exited (status : Z) (stdout : string).

(** What the outside answers during one call of the monitor: the file
    system, the process table, the clock and the range of time stamps the
    platform's [localtime] accepts. *)
Record env : Type := {
  open_stats : string -> string -> open_outcome;
  pgrep : pgrep_outcome;
  os_kill : Z -> option exn;
  now : Z;
  localtime_ok : Z -> bool
}.

(** The outside [e] with the statistics file answering [o]. *)
Definition with_file (e : env) (o : open_outcome) : env :=
  {| open_stats := fun _ _ => o;
     pgrep := pgrep e;
     os_kill := os_kill e;
     now := now e;
     localtime_ok := localtime_ok e |}.

(** ** The monad of the methods: state and exceptions *)

Definition M (A : Type) : Type := world -> world * result A.

#[global] Instance M_ret : MRet M := fun A a w => (w, Ok a).
#[global] Instance M_bind : MBind M := fun A B f m w =>
  match m w with
  | (w', Ok a) => f a w'
  | (w', Raise e) => (w', Raise e)
  end.

Definition lift {A} (r : result A) : M A := fun w => (w, r).

Definition logging (l : level) (m : message) : M unit := fun w =>
  ({| last_fuzzer_data := last_fuzzer_data w;
      scheduler := scheduler w;
      logged := logged w ++ [(l, m)];
      killed := killed w |}, Ok tt).

Definition set_last_fuzzer_data (o : option snapshot) : M unit := fun w =>
  ({| last_fuzzer_data := o;
      scheduler := scheduler w;
      logged := logged w;
      killed := killed w |}, Ok tt).

Definition get_last_fuzzer_data : M (option snapshot) := fun w =>
  (w, Ok (last_fuzzer_data w)).

(** [os.kill(pid, sig)]: the signal is delivered, or the call raises. *)
Definition kill (e : env) (pid : Z) (s : signal) : M unit := fun w =>
  match os_kill e pid with
  | Some ex => (w, Raise ex)
  | None =>
      ({| last_fuzzer_data := last_fuzzer_data w;
          scheduler := scheduler w;
          logged := logged w;
          killed := killed w ++ [(pid, s)] |}, Ok tt)
  end.

(** The queue is kept in the order of [(time, priority)]; an entry goes
    behind the entries that are equal to it in this order. *)
Definition ev_before (a b : event) : bool :=
  (ev_time a <? ev_time b)
  || ((ev_time a =? ev_time b) && (ev_priority a <? ev_priority b)).

Fixpoint enqueue (ev : event) (q : list event) : list event :=
  match q with
  | [] => [ev]
  | x :: q' => if ev_before ev x then ev :: q else x :: enqueue ev q'
  end.

(** [self.scheduler.enter(delay, priority, self.check_fuzzer_status)] *)
Definition scheduler_enter (e : env) (delay priority : Z) : M unit := fun w =>
  ({| last_fuzzer_data := last_fuzzer_data w;
      scheduler :=
        enqueue {| ev_time := now e + delay; ev_priority := priority |}
                (scheduler w);
      logged := logged w;
      killed := killed w |}, Ok tt).

(** The records that reach the output: the root logger is set to [INFO],
    which drops the [DEBUG] records. *)
Definition enabled (l : level) : bool :=
  match l with DEBUG => false | INFO | ERROR => true end.

Definition emitted (w : world) : list message :=
  map snd (List.filter (fun x => enabled (fst x)) (logged w)).

(** ** StatsReader: [read_fuzzer_file] *)

(** The body of the loop over the lines of the file. *)
Definition parse_line (fuzzer_stats : snapshot) (line : string)
  : result snapshot :=
  if contains ":" line then
    '(key, value) ← unpack2 (split1 ":" (strip line));
    v ← (if isdigit (strip value) then VInt <$> py_int (VStr value)
         else Ok (VStr (strip value)));
    mret (<[strip key := v]> fuzzer_stats)
  else mret fuzzer_stats.

Fixpoint parse_lines (fuzzer_stats : snapshot) (lines : list string)
  : result snapshot :=
  match lines with
  | [] => Ok fuzzer_stats
  | line :: rest =>
      fuzzer_stats' ← parse_line fuzzer_stats line;
      parse_lines fuzzer_stats' rest
  end.

(** The [try] block: open the file and fold its lines into the dictionary. *)
Definition read_stats (o : open_outcome) : result snapshot :=
  match o with
  | OpenRaises e => Raise e
  | Contents text => parse_lines ∅ (readlines text)
  end.

(** ** ProcessLocator: [get_afl_fuzz_pids] *)

(** [subprocess.check_output(...).decode()] *)
Definition check_output (o : pgrep_outcome) : result string :=
  match o with
  | SearchRaises e => Raise e
  | Exited status stdout =>
      if status =? 0 then Ok stdout else Raise (CalledProcessError status)
  end.

Definition get_afl_fuzz_pids (e : env) : result (list Z) :=
  match (out ← check_output (pgrep e);
         mapM (fun pid => py_int (VStr pid)) (split_ws out)) with
  | Raise (CalledProcessError _) => Ok []
  | r => r
  end.

(** The loop of [stop_fuzzer] *)
Fixpoint stop_each (e : env) (pids : list Z) : M unit :=
  match pids with
  | [] => mret tt
  | pid :: rest =>
      logging INFO (MsgStopping pid);;
      kill e pid SIGTERM;;
      stop_each e rest
  end.

Definition stop_fuzzer (e : env) : M unit :=
  pids ← lift (get_afl_fuzz_pids e);
  stop_each e pids.

(** ** ActivityEvaluator and Scheduler Loop *)

Inductive verdict : Type := Continue | Stop.

(** [self.last_fuzzer_data.get(key)]: [None] has no attribute [get]. *)
Definition attr_get (o : option snapshot) (key : string)
  : result (option value) :=
  match o with
  | None => Raise AttributeError
  | Some d => Ok (d !! key)
  end.

(** The integers that fit the platform's [time_t], of 64 bits. *)
Definition in_time_t (t : Z) : bool :=
  (- 2 ^ 63 <=? t) && (t <? 2 ^ 63).

(** [strftime(.., localtime(last_find)) if last_find else 'N/A'].
    [localtime] refuses a string with [TypeError], an integer that does not
    fit [time_t] with [OverflowError], and an integer that fits but that the
    platform cannot turn into a local time with [OSError]. *)
Definition format_last_found (e : env) (last_find : value) : result stamp :=
  if truthy last_find then
    match last_find with
    | VInt t =>
        if negb (in_time_t t) then Raise OverflowError
        else if localtime_ok e t then Ok (StampAt t)
        else Raise OSError
    | VStr _ => Raise TypeError
    end
  else Ok StampNA.

(** [f"{int(d.get(key, 0)):,}" if key in d else 'N/A'] *)
Definition format_count (d : snapshot) (key : string) : result cell :=
  if dict_has d key then Grouped <$> py_int (dict_get d key (VInt 0))
  else Ok NA.

Definition data_row (e : env) (fuzzer_data : snapshot) : result row :=
  let last_find := dict_get fuzzer_data "last_find" (VInt 0) in
  let curr_time := now e in
  last_found ← format_last_found e last_find;
  corpus ← format_count fuzzer_data "corpus_count";
  crashes ← format_count fuzzer_data "unique_crashes";
  hangs ← format_count fuzzer_data "unique_hangs";
  execs ← format_count fuzzer_data "execs_done";
  mret {| curr_time := curr_time; last_found := last_found;
          corpus := corpus; crashes := crashes;
          hangs := hangs; execs := execs |}.

Section FuzzerMonitor.

Variable self : config.

(** What the [try] block of [read_fuzzer_file] does on the file at
    [self.output_dir / self.fuzzer_stats_file]. *)
Definition reads (e : env) : result snapshot :=
  read_stats (open_stats e (output_dir self) (fuzzer_stats_file self)).

Definition read_fuzzer_file (e : env) : M (option snapshot) :=
  match reads e with
  | Ok fuzzer_stats => mret (Some fuzzer_stats)
  | Raise FileNotFoundError =>
      logging ERROR
        (MsgDoesNotExist (output_dir self) (fuzzer_stats_file self));;
      mret None
  | Raise ex =>
      logging ERROR
        (MsgReadError (output_dir self) (fuzzer_stats_file self) ex);;
      mret None
  end.

(** [int(fuzzer_data.get("time_wo_finds", 0))] *)
Definition time_wo_finds_of (fuzzer_data : snapshot) : result Z :=
  py_int (dict_get fuzzer_data "time_wo_finds" (VInt 0)).

(** [time_wo_finds > self.max_time_without_finds] *)
Definition exceeds (time_wo_finds : Z) : bool :=
  max_time_without_finds self <? time_wo_finds.

(** The decision a check takes on what it read: no snapshot continues, a
    snapshot stops when its time without finds exceeds the threshold. *)
Definition verdict_of (fuzzer_data : option snapshot) : result verdict :=
  match fuzzer_data with
  | None => Ok Continue
  | Some d =>
      time_wo_finds ← time_wo_finds_of d;
      mret (if exceeds time_wo_finds then Stop else Continue)
  end.

(** The report of a check that continues: the row is built, then printed
    alone when the last find changed, or under a header when there is no
    earlier last find. *)
Definition report (e : env) (fuzzer_data : snapshot) : M unit :=
  let last_find := dict_get fuzzer_data "last_find" (VInt 0) in
  r ← lift (data_row e fuzzer_data);
  prev ← get_last_fuzzer_data;
  changed ← lift (if dict_truthy prev
                  then (fun x => bool_decide (Some last_find ≠ x))
                         <$> attr_get prev "last_find"
                  else Ok false);
  if changed : bool then logging INFO (MsgRow r)
  else
    x ← lift (attr_get prev "last_find");
    if bool_decide (x = None)
    then logging INFO MsgHeader;; logging INFO (MsgRow r)
    else mret tt.

(** The last two statements of [check_fuzzer_status] *)
Definition keep_and_reschedule (e : env) (fuzzer_data : option snapshot)
  : M unit :=
  set_last_fuzzer_data fuzzer_data;;
  scheduler_enter e (check_interval self) 1.

Definition check_fuzzer_status (e : env) : M unit :=
  fuzzer_data ← read_fuzzer_file e;
  match fuzzer_data with
  | Some d =>
      time_wo_finds ← lift (time_wo_finds_of d);
      if exceeds time_wo_finds then
        logging INFO (MsgExiting time_wo_finds);;
        stop_fuzzer e
      else
        report e d;;
        keep_and_reschedule e fuzzer_data
  | None =>
      logging DEBUG MsgUnreadable;;
      keep_and_reschedule e fuzzer_data
  end.

(** [self.scheduler.run()]: while the queue is not empty its first entry is
    taken out, waited for, and run.  [envs k] is what the outside answers
    during the [k]-th check.  The result is [true] when the queue ran empty
    and [false] when the checks allowed by [fuel] did not empty it. *)
Fixpoint scheduler_run (fuel : nat) (envs : nat -> env) (k : nat) : M bool :=
  fun w =>
  match scheduler w with
  | [] => (w, Ok true)
  | _ :: q =>
      match fuel with
      | O => (w, Ok false)
      | S fuel' =>
          let w' := {| last_fuzzer_data := last_fuzzer_data w;
                       scheduler := q;
                       logged := logged w;
                       killed := killed w |} in
          (check_fuzzer_status (envs k);;
           scheduler_run fuel' envs (S k)) w'
      end
  end.

Definition run (fuel : nat) (start : env) (envs : nat -> env) : M bool :=
  logging INFO (MsgStartup (now start) self);;
  scheduler_enter start 10 1;;
  scheduler_run fuel envs 0.

End FuzzerMonitor.

(** [FuzzerMonitor(...)]: the state the constructor leaves. *)
Definition init : world :=
  {| last_fuzzer_data := Some ∅; scheduler := []; logged := []; killed := [] |}.

(** ** Sample inputs and auxiliary definitions *)

(** The record of a failed read. *)
Definition failure_message (self : config) (ex : exn) : message :=
  match ex with
  | FileNotFoundError =>
      MsgDoesNotExist (output_dir self) (fuzzer_stats_file self)
  | _ => MsgReadError (output_dir self) (fuzzer_stats_file self) ex
  end.

(** The outside [e] with the process search answering [o]. *)
Definition with_pgrep (e : env) (o : pgrep_outcome) : env :=
  {| open_stats := open_stats e;
     pgrep := o;
     os_kill := os_kill e;
     now := now e;
     localtime_ok := localtime_ok e |}.

Definition sample_config : config :=
  {| output_dir := "out"; fuzzer_stats_file := "fuzzer_stats";
     max_time_without_finds := 3600; check_interval := 60 |}.

Definition nl : string := String LF EmptyString.

(** An outside where the file holds [text], the search finds the processes
    12 and 34, every signal is delivered and the clock reads [t]. *)
Definition sample_env (o : open_outcome) (t : Z) : env :=
  {| open_stats := fun _ _ => o;
     pgrep := Exited 0 ("12" ++ nl ++ "34" ++ nl);
     os_kill := fun _ => None;
     now := t;
     localtime_ok := fun _ => true |}.

(** The stored snapshot a failed read leaves, met by a good snapshot. *)
Definition missing_then_back : env * env :=
  (sample_env (OpenRaises FileNotFoundError) 10,
   sample_env (Contents ("time_wo_finds: 100" ++ nl
                         ++ "last_find: 1700000000" ++ nl)) 70).

Definition US : string := String (ascii_of_nat 31) EmptyString.
Definition superscript_two : string := String (ascii_of_nat 178) EmptyString.

(** The outside of the first two checks of a run whose statistics file is
    not yet there at the first check. *)
Definition late_file (k : nat) : env :=
  match k with
  | O => missing_then_back.1
  | S _ => missing_then_back.2
  end.

(** What every entry of a dictionary built by the reader satisfies: the key
    is stripped and free of colons; an integer is not negative; a string is
    stripped and does not pass [isdigit]. *)
Definition read_entry (key : string) (v : value) : Prop :=
  strip key = key /\ contains ":" key = false
  /\ match v with
     | VInt n => 0 <= n
     | VStr s => strip s = s /\ isdigit s = false
     end.

(** The key under which a line stores its value, when the line has a colon. *)
Definition line_key (line : string) : option string :=
  if contains ":" line then
    match partition ":" (strip line) with
    | Some (key, _) => Some (strip key)
    | None => None
    end
  else None.

(** The characters [int] accepts somewhere in a literal: blanks, the two
    signs, the decimal digits and the underscore. *)
Definition int_char (c : ascii) : bool :=
  int_space c || between 48 57 (ord c)
  || Ascii.eqb c "_" || Ascii.eqb c "+" || Ascii.eqb c "-".

(** The decimal digits. *)
Definition decimal (c : ascii) : bool := between 48 57 (ord c).

(** The most digits [int] converts with the interpreter's default setting;
    the conversion of a longer numeral is outside [int_of_str]. *)
Definition int_max_str_digits : nat := 4300.

(** The decimal numeral of a natural number, as the fuzzer writes its
    statistics and as the process search prints identifiers: [str(n)]. *)
Definition str (n : N) : string :=
  DecimalString.NilZero.string_of_uint (N.to_uint n).

(** The output of a process search that found [pids]: one numeral a line. *)
Definition pgrep_lines (pids : list N) : string :=
  fold_right (fun p out => str p ++ String LF out) EmptyString pids.

(** A text with every line feed written as carriage return, line feed. *)
Fixpoint crlf (text : string) : string :=
  match text with
  | EmptyString => EmptyString
  | String c r =>
      if Ascii.eqb c LF then String CR (String LF (crlf r))
      else String c (crlf r)
  end.

(** [f"{s:<w}"]: [s] with blanks on its right up to the width [w], and [s]
    itself when it is wider. *)
Definition ljust (w : nat) (s : string) : string :=
  s ++ string_of_list_ascii (repeat " "%char (w - String.length s)).

(** The digits [s] with a comma before every group of three that is not the
    first; [k] digits are left in the running group. *)
Fixpoint group_from (k : nat) (s : string) : string :=
  match s with
  | EmptyString => EmptyString
  | String c r =>
      match k with
      | O => String "," (String c (group_from 2 r))
      | S k' => String c (group_from k' r)
      end
  end.

(** [f"{n:,}"]: the numeral of [n] with thousands separators. *)
Definition format_grouped (n : Z) : string :=
  let digits := str (Z.abs_N n) in
  let grouped := group_from ((String.length digits - 1) mod 3 + 1) digits in
  if n <? 0 then String "-" grouped else grouped.

Definition cell_text (c : cell) : string :=
  match c with
  | NA => "N/A"
  | Grouped n => format_grouped n
  end.

(** The column of the last find, [strftime] being the platform's printer of
    local times. *)
Definition stamp_text (strftime : Z -> string) (s : stamp) : string :=
  match s with
  | StampNA => "N/A"
  | StampAt t => strftime t
  end.

(** The six texts of a line of the table between their bars. *)
Definition table_line (c1 c2 c3 c4 c5 c6 : string) : string :=
  "| " ++ ljust 20 c1 ++ " | " ++ ljust 20 c2 ++ " | " ++ ljust 13 c3
  ++ " | " ++ ljust 13 c4 ++ " | " ++ ljust 11 c5 ++ " | " ++ ljust 13 c6
  ++ " |".

(** The text of the header, line 78. *)
Definition header_text : string :=
  table_line "Current Time" "Last Find" "Corpus Count" "Saved Crashes"
             "Saved Hangs" "Execs Done".

(** The text of a data row, lines 76 and 79. *)
Definition row_text (strftime : Z -> string) (r : row) : string :=
  table_line (strftime (curr_time r)) (stamp_text strftime (last_found r))
             (cell_text (corpus r)) (cell_text (crashes r))
             (cell_text (hangs r)) (cell_text (execs r)).

(** A text without its commas. *)
Fixpoint without_commas (s : string) : string :=
  match s with
  | EmptyString => EmptyString
  | String c r =>
      if Ascii.eqb c "," then without_commas r else String c (without_commas r)
  end.

(** A line on which the body of the reader's loop raises. *)
Definition line_fails (line : string) : bool :=
  match parse_line ∅ line with
  | Ok _ => false
  | Raise _ => true
  end.

(** ** Reasoning about the monad *)

(** Runs the state-changing primitives of a goal. *)
Ltac run_steps :=
  unfold keep_and_reschedule, mbind, M_bind, mret, M_ret, lift, logging,
         set_last_fuzzer_data, get_last_fuzzer_data, scheduler_enter;
  cbn.

Lemma bind_ok {A B} (m : M A) (f : A -> M B) (w w' : world) (a : A) :
  m w = (w', Ok a) -> (m ≫= f) w = f a w'.
Proof. intros H. unfold mbind, M_bind. now rewrite H. Qed.

Lemma bind_raise {A B} (m : M A) (f : A -> M B) (w w' : world) (ex : exn) :
  m w = (w', Raise ex) -> (m ≫= f) w = (w', Raise ex).
Proof. intros H. unfold mbind, M_bind. now rewrite H. Qed.

Lemma lift_bind {A B} (r : result A) (f : A -> M B) (w : world) :
  (lift r ≫= f) w = match r with Ok a => f a w | Raise ex => (w, Raise ex) end.
Proof. unfold mbind, M_bind, lift. now destruct r. Qed.

(** A successful read returns the snapshot and touches nothing. *)
Lemma read_fuzzer_file_ok (self : config) (e : env) (d : snapshot) (w : world) :
  reads self e = Ok d -> read_fuzzer_file self e w = (w, Ok (Some d)).
Proof. intros H. unfold read_fuzzer_file. now rewrite H. Qed.

(** The check of a snapshot that was read, by cases on the conversion of
    its time without finds. *)
Lemma check_fuzzer_status_read (self : config) (e : env) (d : snapshot)
    (w : world) :
  reads self e = Ok d ->
  check_fuzzer_status self e w =
  match time_wo_finds_of d with
  | Ok n =>
      if exceeds self n
      then (logging INFO (MsgExiting n);; stop_fuzzer e) w
      else (report e d;; keep_and_reschedule self e (Some d)) w
  | Raise ex => (w, Raise ex)
  end.
Proof.
  intros H. unfold check_fuzzer_status.
  rewrite (bind_ok _ _ w w (Some d)) by now apply read_fuzzer_file_ok.
  rewrite lift_bind. destruct (time_wo_finds_of d) as [n|ex]; [|done].
  now destruct (exceeds self n).
Qed.

(** ** The stop decision *)

(** C1. For every snapshot read on a check, the verdict is stop exactly when
    the time without finds of the snapshot (0 when the key is absent) is
    strictly greater than the threshold, and the check then takes the
    stopping branch; a value equal to the threshold gives the verdict
    continue, and the check goes on to its report. *)
Theorem verdict_stop_iff_exceeds (self : config) (e : env) (d : snapshot)
    (w : world) :
  reads self e = Ok d ->
  (verdict_of self (Some d) = Ok Stop <->
     exists n, time_wo_finds_of d = Ok n /\ max_time_without_finds self < n)
  /\ (d !! "time_wo_finds" = None -> time_wo_finds_of d = Ok 0)
  /\ (forall n, d !! "time_wo_finds" = Some (VInt n) ->
        time_wo_finds_of d = Ok n)
  /\ (forall n, time_wo_finds_of d = Ok n -> n <= max_time_without_finds self ->
        verdict_of self (Some d) = Ok Continue)
  /\ (time_wo_finds_of d = Ok (max_time_without_finds self) ->
        verdict_of self (Some d) = Ok Continue)
  /\ (forall n, time_wo_finds_of d = Ok n ->
        verdict_of self (Some d) = Ok Stop ->
        check_fuzzer_status self e w =
          (logging INFO (MsgExiting n);; stop_fuzzer e) w)
  /\ (verdict_of self (Some d) = Ok Continue ->
        check_fuzzer_status self e w =
          (report e d;; keep_and_reschedule self e (Some d)) w).
Proof.
  intros Hread.
  assert (Hle : forall n, time_wo_finds_of d = Ok n ->
            n <= max_time_without_finds self ->
            verdict_of self (Some d) = Ok Continue).
  { intros n Hn Hmax. unfold verdict_of. rewrite Hn. cbn.
    unfold exceeds. destruct (Z.ltb_spec (max_time_without_finds self) n); [lia|done]. }
  repeat split.
  - unfold verdict_of. destruct (time_wo_finds_of d) as [n|ex]; cbn; [|done].
    unfold exceeds. destruct (Z.ltb_spec (max_time_without_finds self) n); [|done].
    intros _. now exists n.
  - intros (n & Hn & Hlt). unfold verdict_of. rewrite Hn. cbn.
    unfold exceeds. destruct (Z.ltb_spec (max_time_without_finds self) n); [done|lia].
  - intros Hnone. unfold time_wo_finds_of, dict_get. now rewrite Hnone.
  - intros n Hn. unfold time_wo_finds_of, dict_get. now rewrite Hn.
  - exact Hle.
  - intros Heq. apply (Hle _ Heq). lia.
  - intros n Hn Hstop. rewrite (check_fuzzer_status_read _ _ d) by done.
    unfold verdict_of in Hstop. rewrite Hn in *. cbn in Hstop.
    now destruct (exceeds self n).
  - intros Hcont. rewrite (check_fuzzer_status_read _ _ d) by done.
    unfold verdict_of in Hcont.
    destruct (time_wo_finds_of d) as [n|ex]; cbn in Hcont; [|done].
    now destruct (exceeds self n).
Qed.

Lemma verdict_stop_iff_exceeds_witness :
  let e := sample_env (Contents ("time_wo_finds: 3600" ++ nl)) 5 in
  let d : snapshot := {[ "time_wo_finds" := VInt 3600 ]} in
  reads sample_config e = Ok d
  /\ verdict_of sample_config (Some d) = Ok Continue.
Proof.
  assert (H : reads sample_config
                (sample_env (Contents ("time_wo_finds: 3600" ++ nl)) 5)
              = Ok ({[ "time_wo_finds" := VInt 3600 ]} : snapshot))
    by (vm_compute; reflexivity).
  split; [exact H|].
  destruct (verdict_stop_iff_exceeds sample_config _ _ init H)
    as (_ & _ & _ & _ & Heq & _).
  apply Heq. vm_compute. reflexivity.
Defined.

(** ** What the steps of a check leave untouched *)

(** The loop of [stop_fuzzer] changes neither the stored snapshot nor the
    queue, whatever [os.kill] answers. *)
Lemma stop_each_frame (e : env) (pids : list Z) (w : world) :
  last_fuzzer_data (stop_each e pids w).1 = last_fuzzer_data w
  /\ scheduler (stop_each e pids w).1 = scheduler w.
Proof.
  revert w. induction pids as [|pid rest IH]; intros w; [done|].
  cbn [stop_each]. unfold mbind, M_bind, logging, kill. cbn.
  destruct (os_kill e pid) as [ex|]; [done|].
  destruct (IH {| last_fuzzer_data := last_fuzzer_data w;
                  scheduler := scheduler w;
                  logged := logged w ++ [(INFO, MsgStopping pid)];
                  killed := killed w ++ [(pid, SIGTERM)] |}) as [H1 H2].
  now rewrite H1, H2.
Qed.

Lemma stop_fuzzer_frame (e : env) (w : world) :
  last_fuzzer_data (stop_fuzzer e w).1 = last_fuzzer_data w
  /\ scheduler (stop_fuzzer e w).1 = scheduler w.
Proof.
  unfold stop_fuzzer. rewrite lift_bind.
  destruct (get_afl_fuzz_pids e) as [pids|ex]; [|done].
  apply stop_each_frame.
Qed.

(** When every signal is delivered, the loop logs and signals each
    identifier, in the order of the list. *)
Lemma stop_each_delivered (e : env) (pids : list Z) (w : world) :
  (forall pid, In pid pids -> os_kill e pid = None) ->
  stop_each e pids w =
  ({| last_fuzzer_data := last_fuzzer_data w;
      scheduler := scheduler w;
      logged := logged w ++ map (fun pid => (INFO, MsgStopping pid)) pids;
      killed := killed w ++ map (fun pid => (pid, SIGTERM)) pids |}, Ok tt).
Proof.
  revert w. induction pids as [|pid rest IH]; intros w Hall.
  - cbn. rewrite !app_nil_r. now destruct w.
  - cbn [stop_each]. unfold mbind, M_bind, logging, kill. cbn.
    rewrite (Hall pid) by now left.
    rewrite IH by (intros p Hp; apply Hall; now right).
    cbn. now rewrite <- !app_assoc.
Qed.

(** The report, by cases on the row and on the stored snapshot. *)
Lemma report_cases (e : env) (d : snapshot) (w : world) :
  report e d w =
  match data_row e d with
  | Raise ex => (w, Raise ex)
  | Ok r =>
      match last_fuzzer_data w with
      | None => (w, Raise AttributeError)
      | Some prev =>
          if negb (bool_decide (prev = ∅))
             && bool_decide
                  (Some (dict_get d "last_find" (VInt 0)) ≠ prev !! "last_find")
          then logging INFO (MsgRow r) w
          else if bool_decide (prev !! "last_find" = None)
               then (logging INFO MsgHeader;; logging INFO (MsgRow r)) w
               else (w, Ok tt)
      end
  end.
Proof.
  unfold report. rewrite lift_bind.
  destruct (data_row e d) as [r|ex]; [|done].
  unfold get_last_fuzzer_data. unfold mbind at 1, M_bind at 1.
  rewrite lift_bind.
  destruct (last_fuzzer_data w) as [prev|]; cbn; [|done].
  destruct (bool_decide (prev = ∅)); cbn.
  - rewrite lift_bind. cbn. now destruct (bool_decide (prev !! "last_find" = None)).
  - destruct (bool_decide (_ ≠ _)); [done|].
    rewrite lift_bind. cbn. now destruct (bool_decide (prev !! "last_find" = None)).
Qed.

(** The report only logs. *)
Lemma report_frame (e : env) (d : snapshot) (w : world) :
  last_fuzzer_data (report e d w).1 = last_fuzzer_data w
  /\ scheduler (report e d w).1 = scheduler w
  /\ killed (report e d w).1 = killed w.
Proof.
  rewrite report_cases.
  destruct (data_row e d) as [r|ex]; [|done].
  destruct (last_fuzzer_data w) as [prev|] eqn:Hprev; [|by cbn].
  destruct (_ && _); [by cbn|].
  destruct (bool_decide _); by cbn.
Qed.

Lemma read_fuzzer_file_raise (self : config) (e : env) (ex : exn) (w : world) :
  reads self e = Raise ex ->
  read_fuzzer_file self e w =
  ({| last_fuzzer_data := last_fuzzer_data w;
      scheduler := scheduler w;
      logged := logged w ++ [(ERROR, failure_message self ex)];
      killed := killed w |}, Ok None).
Proof.
  intros H. unfold read_fuzzer_file. rewrite H. now destruct ex.
Qed.

(** The whole check of a read that failed. *)
Lemma check_fuzzer_status_unread (self : config) (e : env) (ex : exn)
    (w : world) :
  reads self e = Raise ex ->
  check_fuzzer_status self e w =
  ({| last_fuzzer_data := None;
      scheduler :=
        enqueue {| ev_time := now e + check_interval self; ev_priority := 1 |}
                (scheduler w);
      logged := logged w ++ [(ERROR, failure_message self ex);
                             (DEBUG, MsgUnreadable)];
      killed := killed w |}, Ok tt).
Proof.
  intros H. unfold check_fuzzer_status.
  rewrite (bind_ok _ _ w _ None (read_fuzzer_file_raise self e ex w H)).
  run_steps. now rewrite <- app_assoc.
Qed.

(** A check that continues and whose report returns keeps the snapshot and
    enters one event. *)
Lemma continue_ok (self : config) (e : env) (d : snapshot) (w w1 : world) :
  report e d w = (w1, Ok tt) ->
  (report e d;; keep_and_reschedule self e (Some d)) w =
  ({| last_fuzzer_data := Some d;
      scheduler :=
        enqueue {| ev_time := now e + check_interval self; ev_priority := 1 |}
                (scheduler w);
      logged := logged w1;
      killed := killed w |}, Ok tt).
Proof.
  intros H. rewrite (bind_ok _ _ w w1 tt H).
  destruct (report_frame e d w) as (_ & Hs & Hk). rewrite H in Hs, Hk.
  cbn in Hs, Hk. run_steps. now rewrite Hs, Hk.
Qed.

(** ** The stored snapshot *)

(** C2, as the code has it. After every check that continues and runs to its
    end, the stored snapshot is the one this check read ([None] when the read
    failed); a check whose verdict is stop returns before the assignment and
    leaves the stored snapshot as it was. *)
Theorem last_fuzzer_data_after_check (self : config) (e : env) (w : world)
    (fuzzer_data : option snapshot) (v : verdict) :
  (read_fuzzer_file self e w).2 = Ok fuzzer_data ->
  verdict_of self fuzzer_data = Ok v ->
  (v = Continue -> (check_fuzzer_status self e w).2 = Ok tt ->
     last_fuzzer_data (check_fuzzer_status self e w).1 = fuzzer_data)
  /\ (v = Stop ->
     last_fuzzer_data (check_fuzzer_status self e w).1 = last_fuzzer_data w).
Proof.
  intros Hread Hv.
  destruct (reads self e) as [d|ex] eqn:Hr.
  - rewrite (read_fuzzer_file_ok _ _ d) in Hread by done.
    injection Hread as <-.
    rewrite (check_fuzzer_status_read _ _ d) by done.
    unfold verdict_of in Hv.
    destruct (time_wo_finds_of d) as [n|ex]; cbn in Hv; [|done].
    destruct (exceeds self n); injection Hv as <-; split; try done.
    + intros _. unfold mbind, M_bind, logging. cbn.
      now destruct (stop_fuzzer_frame e
        {| last_fuzzer_data := last_fuzzer_data w; scheduler := scheduler w;
           logged := logged w ++ [(INFO, MsgExiting n)];
           killed := killed w |}) as [-> _].
    + intros _. destruct (report e d w) as [w1 [[]|ex]] eqn:Hrep.
      * now rewrite (continue_ok _ _ _ _ w1).
      * now rewrite (bind_raise _ _ w w1 ex Hrep).
  - rewrite (read_fuzzer_file_raise _ _ ex) in Hread by done.
    injection Hread as <-. cbn in Hv. injection Hv as <-.
    rewrite (check_fuzzer_status_unread _ _ ex) by done. now split.
Qed.

Lemma last_fuzzer_data_after_check_witness :
  let e := sample_env (Contents ("time_wo_finds: 100" ++ nl
                                 ++ "last_find: 1700000000" ++ nl)) 5 in
  last_fuzzer_data (check_fuzzer_status sample_config e init).1 =
  Some ({[ "time_wo_finds" := VInt 100;
           "last_find" := VInt 1700000000 ]} : snapshot).
Proof.
  intros e.
  apply (last_fuzzer_data_after_check sample_config e init _ Continue).
  - vm_compute. reflexivity.
  - vm_compute. reflexivity.
  - reflexivity.
  - vm_compute. reflexivity.
Defined.

(** The claim C2 fails where the verdict is stop: the check below reads a
    snapshot with 4000 seconds without finds against a threshold of 3600,
    stops the fuzzer and returns, and the stored snapshot is still the empty
    dictionary of the constructor, not the snapshot read. *)
Lemma last_fuzzer_data_not_kept_on_stop :
  let e := sample_env (Contents ("time_wo_finds: 4000" ++ nl)) 5 in
  let d : snapshot := {[ "time_wo_finds" := VInt 4000 ]} in
  (read_fuzzer_file sample_config e init).2 = Ok (Some d)
  /\ verdict_of sample_config (Some d) = Ok Stop
  /\ (check_fuzzer_status sample_config e init).2 = Ok tt
  /\ last_fuzzer_data (check_fuzzer_status sample_config e init).1 = Some ∅
  /\ last_fuzzer_data (check_fuzzer_status sample_config e init).1 <> Some d.
Proof.
  cbv zeta. repeat split; try (vm_compute; reflexivity).
  vm_compute. discriminate.
Qed.

(** ** The report rows *)

(** With no stored dictionary at all the report raises, and prints nothing. *)
Lemma report_without_dict_raises (e : env) (d : snapshot) (w : world) (r : row) :
  data_row e d = Ok r ->
  last_fuzzer_data w = None ->
  report e d w = (w, Raise AttributeError).
Proof. intros Hr Hp. rewrite report_cases, Hr, Hp. reflexivity. Qed.


(** A check that reads a snapshot, continues and builds its row while [None]
    is stored raises, whatever the snapshot, and changes nothing. *)
Lemma check_without_dict_raises (self : config) (e : env) (d : snapshot)
    (w : world) (r : row) :
  reads self e = Ok d ->
  verdict_of self (Some d) = Ok Continue ->
  data_row e d = Ok r ->
  last_fuzzer_data w = None ->
  check_fuzzer_status self e w = (w, Raise AttributeError).
Proof.
  intros Hread Hv Hr Hp.
  rewrite (check_fuzzer_status_read _ _ d) by done.
  unfold verdict_of in Hv.
  destruct (time_wo_finds_of d) as [n|ex]; cbn in Hv; [|done].
  destruct (exceeds self n); [done|].
  now rewrite (bind_raise _ _ w w AttributeError
                 (report_without_dict_raises e d w r Hr Hp)).
Qed.


(** C3, on the code. The first check finds no file and stores [None]; the
    second reads a snapshot whose verdict is continue, with no earlier last
    find. It prints neither header nor row: it raises [AttributeError] when it
    asks [None] for its last find. *)
Theorem check_after_failed_read_raises :
  let w1 := (check_fuzzer_status sample_config missing_then_back.1 init).1 in
  let d : snapshot := {[ "time_wo_finds" := VInt 100;
                         "last_find" := VInt 1700000000 ]} in
  last_fuzzer_data w1 = None
  /\ reads sample_config missing_then_back.2 = Ok d
  /\ verdict_of sample_config (Some d) = Ok Continue
  /\ check_fuzzer_status sample_config missing_then_back.2 w1
     = (w1, Raise AttributeError)
  /\ emitted w1 = [MsgDoesNotExist "out" "fuzzer_stats"].
Proof. cbv zeta. repeat split; vm_compute; reflexivity. Qed.




(** ** The reader *)

Lemma contains_lstrip (c : ascii) (s : string) :
  isspace c = false -> contains c s = true -> contains c (lstrip_with isspace s) = true.
Proof.
  intros Hc. induction s as [|d r IH]; cbn; [done|].
  destruct (isspace d) eqn:Hd; [|done].
  destruct (Ascii.eqb_spec d c) as [->|_]; [congruence|]. exact IH.
Qed.

Lemma contains_rstrip (c : ascii) (s : string) :
  isspace c = false -> contains c s = true -> contains c (rstrip_with isspace s) = true.
Proof.
  intros Hc. induction s as [|d r IH]; cbn; [done|].
  destruct (Ascii.eqb_spec d c) as [->|_]; cbn.
  - intros _. rewrite Hc. cbn. now rewrite Ascii.eqb_refl.
  - intros H. specialize (IH H).
    destruct (rstrip_with isspace r) as [|a t]; [done|].
    rewrite andb_false_r.
    change (contains c (String d (String a t)))
      with (Ascii.eqb d c || contains c (String a t)).
    rewrite IH. apply orb_true_r.
Qed.

(** Stripping a line keeps its colons: a colon is not white space. *)
Lemma contains_strip (s : string) :
  contains ":" s = true -> contains ":" (strip s) = true.
Proof.
  intros H. unfold strip, strip_with.
  apply contains_rstrip; [done|]. now apply contains_lstrip.
Qed.

(** A text that contains the separator splits at its first occurrence. *)
Lemma partition_contains (c : ascii) (s : string) :
  contains c s = true ->
  exists a b, partition c s = Some (a, b)
              /\ s = a ++ String c b /\ contains c a = false.
Proof.
  induction s as [|d r IH]; cbn; [done|].
  destruct (Ascii.eqb_spec d c) as [->|Hne]; cbn.
  - intros _. by exists EmptyString, r.
  - intros H. destruct (IH H) as (a & b & -> & -> & Ha).
    exists (String d a), b. repeat split. cbn.
    destruct (Ascii.eqb_spec d c); [done|]. exact Ha.
Qed.

(** A line without a colon adds nothing and never fails. *)
Lemma parse_line_skip (fuzzer_stats : snapshot) (line : string) :
  contains ":" line = false -> parse_line fuzzer_stats line = Ok fuzzer_stats.
Proof. intros H. unfold parse_line. now rewrite H. Qed.

(** A line with a colon is cut at its first colon; it stores the stripped
    key with the stripped value, as an integer when the stripped value passes
    [isdigit], and it fails when [int] then refuses the value as it stands
    after the colon. *)
Lemma parse_line_pair (fuzzer_stats : snapshot) (line : string) :
  contains ":" line = true ->
  exists key value,
    strip line = key ++ String ":" value /\ contains ":" key = false
    /\ parse_line fuzzer_stats line =
       if isdigit (strip value)
       then match int_of_str value with
            | Some n => Ok (<[strip key := VInt n]> fuzzer_stats)
            | None => Raise ValueError
            end
       else Ok (<[strip key := VStr (strip value)]> fuzzer_stats).
Proof.
  intros H. unfold parse_line. rewrite H.
  destruct (partition_contains ":" (strip line) (contains_strip _ H))
    as (key & value & Hp & Hs & Hk).
  exists key, value. repeat split; [done..|].
  unfold split1. rewrite Hp. cbn.
  destruct (isdigit (strip value)); [|done].
  cbn. now destruct (int_of_str value).
Qed.

(** The reader can only fail the way opening fails or with [ValueError]. *)
Lemma parse_lines_raise (lines : list string) (fuzzer_stats : snapshot) (ex : exn) :
  parse_lines fuzzer_stats lines = Raise ex -> ex = ValueError.
Proof.
  revert fuzzer_stats. induction lines as [|line rest IH]; intros fs; cbn; [done|].
  destruct (contains ":" line) eqn:Hc.
  - destruct (parse_line_pair fs line Hc) as (key & value & _ & _ & ->).
    destruct (isdigit (strip value)); [destruct (int_of_str value)|];
      cbn; eauto; congruence.
  - rewrite parse_line_skip by done. cbn. eauto.
Qed.

(** C5, on the code. In the line [execs_done:<US>5] the value stripped of
    white space is the decimal digit 5, yet it is not stored as an integer:
    [int] is given the value with its unit separator, refuses it, and the
    reader reports a failed read. The same happens for the value made of a
    superscript two, which passes [isdigit] and which [int] refuses. *)
Theorem digit_value_fails_read :
  strip (US ++ "5") = "5"
  /\ isdigit "5" = true
  /\ int_of_str (US ++ "5") = None
  /\ read_stats (Contents ("execs_done:" ++ US ++ "5" ++ nl)) = Raise ValueError
  /\ isdigit superscript_two = true
  /\ read_stats (Contents ("execs_done: " ++ superscript_two ++ nl))
     = Raise ValueError
  /\ forall self e w,
       (read_fuzzer_file self
          (with_file e (Contents ("execs_done:" ++ US ++ "5" ++ nl))) w).2
       = Ok None.
Proof.
  do 6 (split; [vm_compute; reflexivity|]).
  intros self e w.
  now rewrite (read_fuzzer_file_raise _ _ ValueError) by (vm_compute; reflexivity).
Qed.

(** ** Failed reads *)




(** C7. The file whose only line is [time_wo_finds: 12:30] is read without
    failure, the value being kept as the string [12:30]; the check of that
    snapshot raises [ValueError] when it converts the value, out of
    [check_fuzzer_status] and out of the scheduler's loop, with nothing
    logged, stored or entered. *)
Theorem colon_value_escapes_check :
  exists d : snapshot,
    read_stats (Contents ("time_wo_finds: 12:30" ++ nl)) = Ok d
    /\ d !! "time_wo_finds" = Some (VStr "12:30")
    /\ isdigit "12:30" = false
    /\ (forall self e w,
          (read_fuzzer_file self
             (with_file e (Contents ("time_wo_finds: 12:30" ++ nl))) w)
          = (w, Ok (Some d)))
    /\ (forall self e w,
          check_fuzzer_status self
            (with_file e (Contents ("time_wo_finds: 12:30" ++ nl))) w
          = (w, Raise ValueError))
    /\ (forall self fuel start e,
          (run self (S fuel) start
             (fun _ => with_file e (Contents ("time_wo_finds: 12:30" ++ nl)))
             init).2
          = Raise ValueError).
Proof.
  exists {[ "time_wo_finds" := VStr "12:30" ]}.
  assert (Hr : forall self e,
             reads self (with_file e (Contents ("time_wo_finds: 12:30" ++ nl)))
             = Ok ({[ "time_wo_finds" := VStr "12:30" ]} : snapshot))
    by (intros; vm_compute; reflexivity).
  assert (Hc : forall self e w,
             check_fuzzer_status self
               (with_file e (Contents ("time_wo_finds: 12:30" ++ nl))) w
             = (w, Raise ValueError)).
  { intros self e w. now rewrite (check_fuzzer_status_read _ _ _ _ (Hr self e)). }
  do 3 (split; [vm_compute; reflexivity|]).
  split; [|split].
  - intros self e w. now apply read_fuzzer_file_ok.
  - exact Hc.
  - intros self fuel start e. unfold run. run_steps.
    now rewrite (bind_raise _ _ _ _ _ (Hc self e _)).
Qed.

(** ** Locating and stopping the fuzzer *)

(** The claim C8 fails for a search tool that cannot be run: the
    [FileNotFoundError] of a missing [pgrep] is not a [CalledProcessError],
    so it leaves [get_afl_fuzz_pids], and [stop_fuzzer] with it. *)
Lemma search_tool_missing_propagates :
  let e := with_pgrep (sample_env (Contents EmptyString) 0)
                      (SearchRaises FileNotFoundError) in
  get_afl_fuzz_pids e = Raise FileNotFoundError
  /\ get_afl_fuzz_pids e <> Ok []
  /\ stop_fuzzer e init = (init, Raise FileNotFoundError).
Proof. cbv zeta. split; [|split]; [reflexivity|discriminate|reflexivity]. Qed.

(** C8, as the code has it. When the search tool runs and exits with a
    status other than zero, locating returns the empty list and stopping
    does nothing. Whenever locating returns a list and every signal is
    delivered, stopping logs and sends [SIGTERM] to each identifier of the
    list, in order, and to nothing else. *)
Theorem nonzero_exit_finds_nothing (e : env) :
  (forall status stdout,
     pgrep e = Exited status stdout -> status <> 0 ->
     get_afl_fuzz_pids e = Ok [] /\ forall w, stop_fuzzer e w = (w, Ok tt))
  /\ (forall pids w,
        get_afl_fuzz_pids e = Ok pids ->
        (forall pid, In pid pids -> os_kill e pid = None) ->
        stop_fuzzer e w =
        ({| last_fuzzer_data := last_fuzzer_data w;
            scheduler := scheduler w;
            logged := logged w ++ map (fun pid => (INFO, MsgStopping pid)) pids;
            killed := killed w ++ map (fun pid => (pid, SIGTERM)) pids |},
         Ok tt)).
Proof.
  split.
  - intros status stdout Hp Hs.
    assert (Hg : get_afl_fuzz_pids e = Ok []).
    { unfold get_afl_fuzz_pids. rewrite Hp. cbn.
      destruct (Z.eqb_spec status 0); [done|reflexivity]. }
    split; [exact Hg|]. intros w. unfold stop_fuzzer. now rewrite lift_bind, Hg.
  - intros pids w Hg Hall. unfold stop_fuzzer. rewrite lift_bind, Hg.
    now apply stop_each_delivered.
Qed.

Lemma nonzero_exit_finds_nothing_witness :
  get_afl_fuzz_pids (with_pgrep (sample_env (Contents EmptyString) 0)
                                (Exited 1 EmptyString)) = Ok []
  /\ killed (stop_fuzzer (sample_env (Contents EmptyString) 0) init).1
     = [(12, SIGTERM); (34, SIGTERM)].
Proof.
  split.
  - destruct (nonzero_exit_finds_nothing
                (with_pgrep (sample_env (Contents EmptyString) 0)
                            (Exited 1 EmptyString))) as [H _].
    apply (H 1 EmptyString); [reflexivity | discriminate].
  - destruct (nonzero_exit_finds_nothing (sample_env (Contents EmptyString) 0))
      as [_ H].
    rewrite (H [12; 34] init); [reflexivity | vm_compute; reflexivity | reflexivity].
Defined.

(** ** The scheduling loop *)

(** A check leaves the queue as it was or adds the next check to it: it adds
    it when it continues and returns, and leaves the queue when it stops or
    raises. *)
Lemma check_fuzzer_status_queue (self : config) (e : env) (w : world) :
  (exists ex, (check_fuzzer_status self e w).2 = Raise ex
              /\ scheduler (check_fuzzer_status self e w).1 = scheduler w)
  \/ (exists d, reads self e = Ok d /\ verdict_of self (Some d) = Ok Stop
                /\ scheduler (check_fuzzer_status self e w).1 = scheduler w)
  \/ ((check_fuzzer_status self e w).2 = Ok tt
      /\ scheduler (check_fuzzer_status self e w).1
         = enqueue {| ev_time := now e + check_interval self; ev_priority := 1 |}
                   (scheduler w)).
Proof.
  destruct (reads self e) as [d|ex] eqn:Hr.
  - rewrite (check_fuzzer_status_read _ _ d) by done.
    unfold verdict_of.
    destruct (time_wo_finds_of d) as [n|ex] eqn:Ht; [|left; by exists ex].
    destruct (exceeds self n) eqn:Hn.
    + right; left. exists d. split; [done|].
      split; [rewrite Ht; cbn; by rewrite Hn|].
      unfold mbind, M_bind, logging. cbn.
      now destruct (stop_fuzzer_frame e
        {| last_fuzzer_data := last_fuzzer_data w; scheduler := scheduler w;
           logged := logged w ++ [(INFO, MsgExiting n)];
           killed := killed w |}) as [_ ->].
    + destruct (report e d w) as [w1 [[]|ex]] eqn:Hrep.
      * right; right. now rewrite (continue_ok _ _ _ _ w1).
      * left. exists ex. rewrite (bind_raise _ _ w w1 ex Hrep). split; [done|].
        destruct (report_frame e d w) as (_ & Hs & _). now rewrite Hrep in Hs.
  - right; right. now rewrite (check_fuzzer_status_unread _ _ ex).
Qed.

Lemma enqueue_length (ev : event) (q : list event) :
  length (enqueue ev q) = S (length q).
Proof.
  induction q as [|x q IH]; cbn; [done|].
  destruct (ev_before ev x); cbn; [done|]. now rewrite IH.
Qed.

(** Starting enters the first check ten time units from now. *)
Lemma run_enters_first_check (self : config) (start : env) (envs : nat -> env) :
  scheduler (run self 0 start envs init).1
  = [{| ev_time := now start + 10; ev_priority := 1 |}].
Proof. reflexivity. Qed.

(** Between the checks of the loop at most one check is pending. *)
Lemma scheduler_run_pending (self : config) (envs : nat -> env) (fuel : nat) :
  forall (k : nat) (w : world),
    (length (scheduler w) <= 1)%nat ->
    (length (scheduler (scheduler_run self fuel envs k w).1) <= 1)%nat.
Proof.
  induction fuel as [|fuel IH]; intros k w Hw.
  - destruct w as [l q lg kl]. destruct q; cbn; [lia|exact Hw].
  - destruct w as [l q lg kl]. destruct q as [|ev q]; [cbn; lia|].
    cbn in Hw. assert (q = []) as -> by (destruct q; [done|cbn in Hw; lia]).
    cbn [scheduler_run scheduler last_fuzzer_data logged killed].
    set (w' := {| last_fuzzer_data := l; scheduler := []; logged := lg;
                  killed := kl |}).
    pose proof (check_fuzzer_status_queue self (envs k) w') as Hq.
    unfold mbind, M_bind.
    destruct (check_fuzzer_status self (envs k) w') as [w1 [[]|ex]] eqn:Hc;
      cbn in Hq.
    + apply IH.
      destruct Hq as [(ex & He & _)|[(d & _ & _ & ->)|(_ & ->)]];
        [done|cbn; lia|cbn; lia].
    + cbn. destruct Hq as [(ex' & _ & ->)|[(d & _ & _ & ->)|(He & _)]];
        [cbn; lia|cbn; lia|done].
Qed.

Lemma run_pending (self : config) (start : env) (envs : nat -> env) (fuel : nat) :
  (length (scheduler (run self fuel start envs init).1) <= 1)%nat.
Proof.
  unfold run. run_steps. apply scheduler_run_pending. cbn. lia.
Qed.

(** C9, on the code. In the run below the first check comes ten units after
    the start, finds no file and enters the second check one interval later.
    The second check reads a snapshot whose verdict is continue, and enters
    no further check: it raises [AttributeError] at the stored [None], the
    queue is left empty and the exception ends the run. *)
Theorem continuing_check_enters_nothing :
  let start := sample_env (OpenRaises FileNotFoundError) 0 in
  let w0 := (run sample_config 0 start late_file init).1 in
  let w1 := (run sample_config 1 start late_file init).1 in
  let d : snapshot := {[ "time_wo_finds" := VInt 100;
                         "last_find" := VInt 1700000000 ]} in
  scheduler w0 = [{| ev_time := 10; ev_priority := 1 |}]
  /\ scheduler w1 = [{| ev_time := 70; ev_priority := 1 |}]
  /\ last_fuzzer_data w1 = None
  /\ reads sample_config (late_file 1) = Ok d
  /\ verdict_of sample_config (Some d) = Ok Continue
  /\ (run sample_config 2 start late_file init).2 = Raise AttributeError
  /\ scheduler (run sample_config 2 start late_file init).1 = [].
Proof. cbv zeta. repeat split; vm_compute; reflexivity. Qed.

(** ** Reading twice *)

(** C10. Reading the same file content twice, the second time in the state
    the first read leaves and whatever else the outside answers, returns the
    same result both times: the snapshot the lines of the content fold into
    when they parse, and no snapshot otherwise. *)
Theorem read_twice_same_snapshot (self : config) (e1 e2 : env) (w : world)
    (text : string) :
  let r1 := read_fuzzer_file self (with_file e1 (Contents text)) w in
  let r2 := read_fuzzer_file self (with_file e2 (Contents text)) r1.1 in
  r1.2 = r2.2
  /\ r1.2 = Ok (match parse_lines ∅ (readlines text) with
                | Ok d => Some d
                | Raise _ => None
                end).
Proof.
  cbv zeta.
  assert (H : forall e w',
    (read_fuzzer_file self (with_file e (Contents text)) w').2 =
    Ok (match parse_lines ∅ (readlines text) with
        | Ok d => Some d
        | Raise _ => None
        end)).
  { intros e w'. unfold read_fuzzer_file, reads. cbn.
    destruct (parse_lines ∅ (readlines text)) as [d|ex]; [done|].
    now destruct ex. }
  now rewrite !H.
Qed.

(** * Further properties of the monitor *)

(** ** White space and stripping *)

Lemma lstrip_head (sp : ascii -> bool) (s : string) :
  match lstrip_with sp s with
  | EmptyString => True
  | String c _ => sp c = false
  end.
Proof.
  induction s as [|c r IH]; cbn; [done|].
  destruct (sp c) eqn:Hc; [exact IH|exact Hc].
Qed.

Lemma lstrip_fixed (sp : ascii -> bool) (c : ascii) (r : string) :
  sp c = false -> lstrip_with sp (String c r) = String c r.
Proof. intros H. cbn. now rewrite H. Qed.

Lemma rstrip_head (sp : ascii -> bool) (c : ascii) (r : string) :
  sp c = false ->
  rstrip_with sp (String c r) = String c (rstrip_with sp r).
Proof. intros H. cbn. now rewrite H. Qed.

Lemma rstrip_idem (sp : ascii -> bool) (s : string) :
  rstrip_with sp (rstrip_with sp s) = rstrip_with sp s.
Proof.
  induction s as [|c r IH]; cbn; [done|].
  destruct (sp c && is_empty (rstrip_with sp r)) eqn:Hc; [done|].
  cbn. now rewrite IH, Hc.
Qed.

(** Stripping twice is stripping once. *)
Lemma strip_with_idem (sp : ascii -> bool) (s : string) :
  strip_with sp (strip_with sp s) = strip_with sp s.
Proof.
  unfold strip_with.
  pose proof (lstrip_head sp s) as Hh.
  destruct (lstrip_with sp s) as [|c r]; [done|].
  rewrite (rstrip_head sp c r Hh), (lstrip_fixed sp c _ Hh).
  rewrite <- (rstrip_head sp c r Hh). apply rstrip_idem.
Qed.

Lemma contains_lstrip_inv (sp : ascii -> bool) (c : ascii) (s : string) :
  contains c (lstrip_with sp s) = true -> contains c s = true.
Proof.
  induction s as [|d r IH]; cbn; [done|].
  destruct (sp d); [|done]. intros H. rewrite (IH H). apply orb_true_r.
Qed.

Lemma contains_rstrip_inv (sp : ascii -> bool) (c : ascii) (s : string) :
  contains c (rstrip_with sp s) = true -> contains c s = true.
Proof.
  induction s as [|d r IH]; cbn; [done|].
  destruct (sp d && is_empty (rstrip_with sp r)); [done|].
  cbn. destruct (Ascii.eqb d c); [done|]. exact IH.
Qed.

(** Stripping adds no character. *)
Lemma contains_strip_with_inv (sp : ascii -> bool) (c : ascii) (s : string) :
  contains c (strip_with sp s) = true -> contains c s = true.
Proof.
  intros H. apply (contains_lstrip_inv sp), (contains_rstrip_inv sp), H.
Qed.

Lemma not_contains_strip (c : ascii) (s : string) :
  contains c s = false -> contains c (strip s) = false.
Proof.
  intros H. destruct (contains c (strip s)) eqn:Hc; [|done].
  apply contains_strip_with_inv in Hc. congruence.
Qed.

(** ** What [int] returns *)

Lemma digit_val_range (c : ascii) (d : Z) :
  digit_val c = Some d -> 0 <= d <= 9.
Proof.
  unfold digit_val, between.
  destruct (48 <=? ord c)%N eqn:H1; [|done].
  destruct (ord c <=? 57)%N eqn:H2; [|done].
  cbn. intros [= <-].
  apply N.leb_le in H1, H2. lia.
Qed.

Lemma int_body_ge_tails (s : string) :
  (forall acc n, 0 <= acc -> int_body acc s = Some n -> 0 <= n)
  /\ (forall c r acc n, s = String c r -> 0 <= acc ->
        int_body acc r = Some n -> 0 <= n).
Proof.
  induction s as [|c r [IH1 IH2]]; split.
  - intros acc n Hacc. cbn. now intros [= <-].
  - done.
  - intros acc n Hacc. cbn.
    destruct (digit_val c) as [d|] eqn:Hd.
    + apply IH1. apply digit_val_range in Hd. lia.
    + destruct (Ascii.eqb c "_"); [|done].
      destruct r as [|c' r']; [done|].
      destruct (digit_val c') as [d|] eqn:Hd'; [|done].
      apply (IH2 c' r'); [done|]. apply digit_val_range in Hd'. lia.
  - intros c0 r0 acc n [= _ <-]. apply IH1.
Qed.

Lemma int_body_ge (s : string) (acc n : Z) :
  0 <= acc -> int_body acc s = Some n -> 0 <= n.
Proof. apply int_body_ge_tails. Qed.

Lemma int_unsigned_ge (s : string) (n : Z) :
  int_unsigned s = Some n -> 0 <= n.
Proof.
  destruct s as [|c r]; cbn; [done|].
  destruct (digit_val c) as [d|] eqn:Hd; [|done].
  apply int_body_ge. apply digit_val_range in Hd. lia.
Qed.

Lemma lstrip_sub (sp1 sp2 : ascii -> bool) (s : string) :
  (forall c, sp1 c = true -> sp2 c = true) ->
  lstrip_with sp2 (lstrip_with sp1 s) = lstrip_with sp2 s.
Proof.
  intros Hsub. induction s as [|c r IH]; cbn; [done|].
  destruct (sp1 c) eqn:H1.
  - now rewrite (Hsub c H1).
  - cbn. reflexivity.
Qed.

Lemma int_space_isspace (c : ascii) : int_space c = true -> isspace c = true.
Proof.
  unfold int_space, isspace, between.
  intros H. repeat (apply orb_true_iff in H; destruct H as [H|H]).
  - now rewrite H.
  - apply N.eqb_eq in H. now rewrite H.
  - rewrite H. now rewrite !orb_true_r.
  - rewrite H. now rewrite !orb_true_r.
Qed.

(** A value whose stripped text passes [isdigit] converts, when it does, to
    an integer that is not negative. *)
Lemma int_of_isdigit_ge (value : string) (n : Z) :
  isdigit (strip value) = true -> int_of_str value = Some n -> 0 <= n.
Proof.
  intros Hd. unfold int_of_str, strip_with.
  pose proof (lstrip_head int_space value) as Hh.
  pose proof (lstrip_sub int_space isspace value int_space_isspace) as Hsub.
  destruct (lstrip_with int_space value) as [|c r]; [done|].
  rewrite (rstrip_head int_space c r Hh).
  assert (Hc : isspace c || isdigit_char c = true).
  { destruct (isspace c) eqn:Hs; [done|]. cbn.
    unfold isdigit, strip, strip_with in Hd. rewrite <- Hsub in Hd.
    rewrite (lstrip_fixed isspace c r Hs), (rstrip_head isspace c _ Hs) in Hd.
    cbn in Hd. now apply andb_true_iff in Hd as [Hd _]. }
  destruct (Ascii.eqb_spec c "+") as [->|_]; [done|].
  destruct (Ascii.eqb_spec c "-") as [->|_]; [done|].
  apply int_unsigned_ge.
Qed.

(** ** The dictionary the reader builds *)

Lemma parse_line_read_entry (fs fs' : snapshot) (line : string) :
  map_Forall read_entry fs ->
  parse_line fs line = Ok fs' ->
  map_Forall read_entry fs'.
Proof.
  intros Hfs. destruct (contains ":" line) eqn:Hc.
  - destruct (parse_line_pair fs line Hc) as (key & value & _ & Hk & ->).
    assert (Hkey : strip (strip key) = strip key /\ contains ":" (strip key) = false).
    { split; [apply strip_with_idem|now apply not_contains_strip]. }
    destruct (isdigit (strip value)) eqn:Hd.
    + destruct (int_of_str value) as [n|] eqn:Hn; [|done].
      intros [= <-]. apply map_Forall_insert_2; [|done].
      destruct Hkey. repeat split; [done..|].
      now apply (int_of_isdigit_ge value).
    + intros [= <-]. apply map_Forall_insert_2; [|done].
      destruct Hkey. repeat split; [done..|apply strip_with_idem|done].
  - rewrite parse_line_skip by done. now intros [= <-].
Qed.

Lemma parse_lines_read_entry (lines : list string) :
  forall fs d : snapshot,
    map_Forall read_entry fs ->
    parse_lines fs lines = Ok d ->
    map_Forall read_entry d.
Proof.
  induction lines as [|line rest IH]; intros fs d Hfs; cbn.
  - now intros [= <-].
  - destruct (parse_line fs line) as [fs'|ex] eqn:Hl; cbn; [|done].
    apply IH. now apply (parse_line_read_entry fs fs' line).
Qed.

(** Every entry of a snapshot the reader returns has a stripped key without
    a colon, and its value is an integer that is not negative or a stripped
    string that does not pass [isdigit]. *)
Theorem read_entries_shape (self : config) (e : env) (d : snapshot)
    (key : string) (v : value) :
  reads self e = Ok d ->
  d !! key = Some v ->
  read_entry key v.
Proof.
  unfold reads, read_stats. intros Hr Hk.
  destruct (open_stats e (output_dir self) (fuzzer_stats_file self))
    as [ex|text]; [done|].
  apply (parse_lines_read_entry _ ∅ d (map_Forall_empty _) Hr key v Hk).
Qed.

Lemma read_entries_shape_witness :
  read_entry "last_find" (VInt 1700000000).
Proof.
  apply (read_entries_shape sample_config missing_then_back.2
           {[ "time_wo_finds" := VInt 100; "last_find" := VInt 1700000000 ]}).
  - vm_compute. reflexivity.
  - vm_compute. reflexivity.
Defined.

(** Whether a line raises does not depend on the dictionary built so far. *)
Lemma parse_line_fails (fs : snapshot) (line : string) :
  line_fails line = true <-> parse_line fs line = Raise ValueError.
Proof.
  unfold line_fails, parse_line.
  destruct (contains ":" line); [|done].
  destruct (unpack2 (split1 ":" (strip line))) as [[key value]|ex] eqn:Hu.
  - cbn. destruct (isdigit (strip value)); [|done].
    cbn. now destruct (int_of_str value).
  - unfold split1 in Hu.
    destruct (partition ":" (strip line)) as [[a b]|]; cbn in Hu; [done|].
    injection Hu as <-. now cbn.
Qed.

Lemma parse_line_ok_or_fails (fs : snapshot) (line : string) :
  (exists fs', parse_line fs line = Ok fs' /\ line_fails line = false)
  \/ (parse_line fs line = Raise ValueError /\ line_fails line = true).
Proof.
  destruct (line_fails line) eqn:Hf.
  - right. split; [|done]. now apply parse_line_fails.
  - left. destruct (parse_line fs line) as [fs'|ex] eqn:Hp; [by exists fs'|].
    assert (ex = ValueError) as ->.
    { apply (parse_lines_raise [line] fs). cbn. now rewrite Hp. }
    apply parse_line_fails in Hp. congruence.
Qed.

Lemma parse_lines_fails (lines : list string) :
  forall fs : snapshot,
    parse_lines fs lines = Raise ValueError <-> existsb line_fails lines = true.
Proof.
  induction lines as [|line rest IH]; intros fs; cbn; [done|].
  destruct (parse_line_ok_or_fails fs line) as [(fs' & -> & ->)|[-> ->]]; cbn.
  - apply IH.
  - done.
Qed.

(** The reader keeps nothing of a file with a line it cannot convert: the read
    fails, wherever the line stands, exactly when some line of the file fails;
    it then returns no snapshot. *)
Theorem read_all_or_nothing (self : config) (e : env) (w : world)
    (text : string) :
  (existsb line_fails (readlines text) = true <->
     read_stats (Contents text) = Raise ValueError)
  /\ (existsb line_fails (readlines text) = false <->
        exists d, read_stats (Contents text) = Ok d)
  /\ (existsb line_fails (readlines text) = true <->
        (read_fuzzer_file self (with_file e (Contents text)) w).2 = Ok None).
Proof.
  unfold read_fuzzer_file, reads. cbn [read_stats with_file open_stats].
  pose proof (parse_lines_fails (readlines text) ∅) as Hf.
  pose proof (parse_lines_raise (readlines text) ∅) as Hr.
  destruct (existsb line_fails (readlines text)).
  - destruct Hf as [_ Hf]. rewrite (Hf eq_refl). cbn.
    split; [done|]. split; [|done]. split; [done|]. now intros [d Hd].
  - destruct (parse_lines ∅ (readlines text)) as [d|ex].
    + split; [done|]. split; [|done]. split; [by exists d|done].
    + rewrite (Hr ex eq_refl) in Hf. destruct Hf as [Hf _].
      now specialize (Hf eq_refl).
Qed.

Lemma parse_line_other (fs fs' : snapshot) (line k : string) :
  parse_line fs line = Ok fs' ->
  line_key line <> Some k ->
  fs' !! k = fs !! k.
Proof.
  unfold parse_line, line_key, split1.
  destruct (contains ":" line); [|now intros [= <-]].
  destruct (partition ":" (strip line)) as [[key value]|]; cbn; [|done].
  destruct (isdigit (strip value)); cbn.
  - destruct (int_of_str value); cbn; [|done].
    intros [= <-] Hk. apply lookup_insert_ne. congruence.
  - intros [= <-] Hk. apply lookup_insert_ne. congruence.
Qed.

Lemma parse_line_key (fs fs' : snapshot) (line k : string) :
  parse_line fs line = Ok fs' ->
  line_key line = Some k ->
  exists v, fs' !! k = Some v /\ parse_line ∅ line = Ok {[ k := v ]}.
Proof.
  unfold parse_line, line_key, split1.
  destruct (contains ":" line); [|done].
  destruct (partition ":" (strip line)) as [[key value]|]; cbn; [|done].
  destruct (isdigit (strip value)); cbn.
  - destruct (int_of_str value) as [n|]; cbn; [|done].
    intros [= <-] [= <-]. exists (VInt n). split; [apply lookup_insert_eq|].
    now rewrite insert_empty.
  - intros [= <-] [= <-]. exists (VStr (strip value)).
    split; [apply lookup_insert_eq|]. now rewrite insert_empty.
Qed.

Lemma parse_lines_other (lines : list string) (k : string) :
  forall fs d : snapshot,
    parse_lines fs lines = Ok d ->
    Forall (fun l => line_key l <> Some k) lines ->
    d !! k = fs !! k.
Proof.
  induction lines as [|line rest IH]; intros fs d; cbn.
  - now intros [= <-].
  - destruct (parse_line fs line) as [fs'|ex] eqn:Hl; cbn; [|done].
    intros Hd Hall. apply Forall_cons in Hall as [Hk Hrest].
    rewrite (IH fs' d Hd Hrest). now apply (parse_line_other fs fs' line).
Qed.

Lemma parse_lines_app (l1 l2 : list string) :
  forall fs : snapshot,
    parse_lines fs (l1 ++ l2)%list
    = (parse_lines fs l1 ≫= fun fs' => parse_lines fs' l2).
Proof.
  induction l1 as [|line rest IH]; intros fs; cbn; [done|].
  destruct (parse_line fs line) as [fs'|ex]; cbn; [apply IH|done].
Qed.

(** Of the lines of a file that store under one key, the last one decides:
    the snapshot holds for the key what that line alone would store. A key
    under which no line stores is absent from the snapshot. *)
Theorem last_line_decides (text : string) (d : snapshot) (k : string) :
  read_stats (Contents text) = Ok d ->
  (forall l1 line l2,
     readlines text = (l1 ++ line :: l2)%list ->
     line_key line = Some k ->
     Forall (fun l => line_key l <> Some k) l2 ->
     exists v, d !! k = Some v /\ parse_line ∅ line = Ok {[ k := v ]})
  /\ (Forall (fun l => line_key l <> Some k) (readlines text) -> d !! k = None).
Proof.
  cbn. intros Hd. split.
  - intros l1 line l2 Hl Hk Hl2. rewrite Hl, parse_lines_app in Hd.
    destruct (parse_lines ∅ l1) as [fs1|ex]; cbn in Hd; [|done].
    destruct (parse_line fs1 line) as [fs2|ex] eqn:Hp; cbn in Hd; [|done].
    destruct (parse_line_key fs1 fs2 line k Hp Hk) as (v & Hv & Hone).
    exists v. split; [|done].
    now rewrite (parse_lines_other l2 k fs2 d Hd Hl2).
  - intros Hall. now rewrite (parse_lines_other _ k ∅ d Hd Hall).
Qed.

Lemma last_line_decides_witness :
  exists v, ({[ "execs_done" := VInt 7 ]} : snapshot) !! "execs_done" = Some v
            /\ parse_line ∅ ("execs_done : 7" ++ nl) = Ok {[ "execs_done" := v ]}.
Proof.
  destruct (last_line_decides
              ("execs_done: 5" ++ nl ++ "execs_done : 7" ++ nl ++ "# end" ++ nl)
              {[ "execs_done" := VInt 7 ]} "execs_done") as [H _].
  - vm_compute. reflexivity.
  - apply (H ["execs_done: 5" ++ nl] ("execs_done : 7" ++ nl) ["# end" ++ nl]).
    + vm_compute. reflexivity.
    + vm_compute. reflexivity.
    + repeat constructor. vm_compute. discriminate.
Defined.

(** ** Files without entries *)






(** ** What a check prints *)






(** ** Checks that raise, and signals *)



(** The two refusals of [localtime] on a platform that converts the time
    stamps up to the year 2147485547: a last find of nineteen digits that fits
    [time_t] raises [OSError], one that does not fit raises [OverflowError]. *)
Lemma refused_last_find_raises :
  let e (text : string) :=
    {| open_stats := fun _ _ => Contents text;
       pgrep := Exited 1 EmptyString;
       os_kill := fun _ => None;
       now := 5;
       localtime_ok := fun t => Z.abs t <? 67768036191676800 |} in
  check_fuzzer_status sample_config
    (e ("last_find: 1000000000000000000" ++ nl)) init = (init, Raise OSError)
  /\ check_fuzzer_status sample_config
       (e ("last_find: 9223372036854775808" ++ nl)) init
     = (init, Raise OverflowError).
Proof. cbv zeta. split; vm_compute; reflexivity. Qed.




Lemma check_killed_frame (self : config) (e : env) (w : world) :
  (forall d, reads self e = Ok d -> verdict_of self (Some d) <> Ok Stop) ->
  killed (check_fuzzer_status self e w).1 = killed w.
Proof.
  intros Hstop. destruct (reads self e) as [d|ex0] eqn:Hr.
  - rewrite (check_fuzzer_status_read _ _ d) by done.
    specialize (Hstop d eq_refl). unfold verdict_of in Hstop.
    destruct (time_wo_finds_of d) as [n|ex1]; [|done].
    cbn in Hstop. destruct (exceeds self n); [done|].
    destruct (report e d w) as [w1 [[]|ex]] eqn:Hrep.
    + now rewrite (continue_ok _ _ _ _ w1).
    + rewrite (bind_raise _ _ w w1 ex Hrep). cbn.
      destruct (report_frame e d w) as (_ & _ & Hk). now rewrite Hrep in Hk.
  - now rewrite (check_fuzzer_status_unread _ _ ex0).
Qed.

(** A check sends a signal only after the verdict stop: on every other check,
    whatever is read and whatever happens, the signals sent are those sent
    before. *)
Theorem no_signal_without_stop (self : config) (e : env) (w : world) :
  (forall d, reads self e = Ok d -> verdict_of self (Some d) <> Ok Stop) ->
  killed (check_fuzzer_status self e w).1 = killed w.
Proof. apply check_killed_frame. Qed.

Lemma no_signal_without_stop_witness :
  killed (check_fuzzer_status sample_config
            (sample_env (Contents ("time_wo_finds: 3600" ++ nl)) 5) init).1 = [].
Proof.
  apply (no_signal_without_stop sample_config
           (sample_env (Contents ("time_wo_finds: 3600" ++ nl)) 5) init).
  intros d Hd. assert (d = {[ "time_wo_finds" := VInt 3600 ]}) as ->.
  { assert (H : reads sample_config
                  (sample_env (Contents ("time_wo_finds: 3600" ++ nl)) 5)
                = Ok ({[ "time_wo_finds" := VInt 3600 ]} : snapshot))
      by (vm_compute; reflexivity).
    congruence. }
  vm_compute. discriminate.
Defined.

(** ** Stopping the fuzzer *)

(** The loop of [stop_fuzzer] up to a send that fails: the identifiers before
    it are logged and signalled, the failing one is logged only, and the loop
    ends there with the exception of the send. *)
Lemma stop_each_failed_send (e : env) (pre post : list Z) (pid : Z)
    (ex : exn) (w : world) :
  (forall p, In p pre -> os_kill e p = None) ->
  os_kill e pid = Some ex ->
  stop_each e (pre ++ pid :: post) w =
  ({| last_fuzzer_data := last_fuzzer_data w;
      scheduler := scheduler w;
      logged := logged w
                ++ map (fun p => (INFO, MsgStopping p)) (pre ++ [pid]);
      killed := killed w ++ map (fun p => (p, SIGTERM)) pre |}, Raise ex).
Proof.
  revert w. induction pre as [|p pre IH]; intros w Hpre Hpid.
  - cbn [app stop_each]. unfold mbind, M_bind, logging, kill. cbn.
    rewrite Hpid. now rewrite app_nil_r.
  - cbn [app stop_each]. unfold mbind at 1 2, M_bind at 1 2, logging, kill. cbn.
    rewrite (Hpre p) by now left.
    rewrite IH by (try done; intros q Hq; apply Hpre; now right).
    cbn. now rewrite <- !app_assoc.
Qed.

(** A send that fails ends the stopping: when the search returns a list of
    identifiers and [os.kill] raises at one of them after succeeding on those
    before it, the earlier processes have received [SIGTERM], the later ones
    receive nothing, and the exception leaves [stop_fuzzer]. *)
Theorem failed_send_ends_stopping (e : env) (pre post : list Z) (pid : Z)
    (ex : exn) (w : world) :
  get_afl_fuzz_pids e = Ok (pre ++ pid :: post)%list ->
  (forall p, In p pre -> os_kill e p = None) ->
  os_kill e pid = Some ex ->
  (stop_fuzzer e w).2 = Raise ex
  /\ killed (stop_fuzzer e w).1
     = (killed w ++ map (fun p => (p, SIGTERM)) pre)%list
  /\ logged (stop_fuzzer e w).1
     = (logged w ++ map (fun p => (INFO, MsgStopping p)) (pre ++ [pid]))%list.
Proof.
  intros Hg Hpre Hpid. unfold stop_fuzzer. rewrite lift_bind, Hg.
  now rewrite (stop_each_failed_send e pre post pid ex w Hpre Hpid).
Qed.

Lemma failed_send_ends_stopping_witness :
  let e := {| open_stats := fun _ _ => Contents EmptyString;
              pgrep := Exited 0 ("12 34 56");
              os_kill := fun p => if p =? 34 then Some ProcessLookupError
                                  else None;
              now := 0;
              localtime_ok := fun _ => true |} in
  killed (stop_fuzzer e init).1 = [(12, SIGTERM)].
Proof.
  intros e.
  destruct (failed_send_ends_stopping e [12] [56] 34 ProcessLookupError init)
    as (_ & H & _).
  - vm_compute. reflexivity.
  - intros p [<-|[]]. reflexivity.
  - reflexivity.
  - exact H.
Defined.

Lemma stop_each_killed (e : env) (pids : list Z) :
  forall w, exists k,
    killed (stop_each e pids w).1
    = (killed w ++ map (fun p => (p, SIGTERM)) (take k pids))%list.
Proof.
  induction pids as [|pid rest IH]; intros w.
  - exists 0%nat. cbn. now rewrite app_nil_r.
  - cbn [stop_each]. unfold mbind, M_bind, logging, kill. cbn.
    destruct (os_kill e pid) as [ex|].
    + exists 0%nat. cbn. now rewrite app_nil_r.
    + destruct (IH {| last_fuzzer_data := last_fuzzer_data w;
                      scheduler := scheduler w;
                      logged := logged w ++ [(INFO, MsgStopping pid)];
                      killed := killed w ++ [(pid, SIGTERM)] |}) as [k Hk].
      exists (S k). rewrite Hk. cbn. now rewrite <- app_assoc.
Qed.

(** Whatever the search and the sends answer, [stop_fuzzer] sends nothing but
    [SIGTERM], to nothing but the identifiers the search returned, in their
    order and without skipping one: the signals it adds are those of a prefix
    of the list, and none when the search raises. *)
Theorem signals_are_sigterm_to_located (e : env) (w : world) :
  exists k,
    killed (stop_fuzzer e w).1
    = (killed w ++
       map (fun p => (p, SIGTERM))
           (take k (match get_afl_fuzz_pids e with
                    | Ok pids => pids
                    | Raise _ => []
                    end)))%list.
Proof.
  unfold stop_fuzzer. rewrite lift_bind.
  destruct (get_afl_fuzz_pids e) as [pids|ex].
  - apply stop_each_killed.
  - exists 0%nat. cbn. now rewrite app_nil_r.
Qed.

(** ** Values that [int] refuses *)

Lemma all_chars_lstrip (sp q : ascii -> bool) (s : string) :
  all_chars q (lstrip_with sp s) = true ->
  all_chars (fun c => sp c || q c) s = true.
Proof.
  induction s as [|c r IH]; cbn; [done|].
  destruct (sp c) eqn:Hc; cbn; [exact IH|].
  intros H. apply andb_true_iff in H as [-> Hr]. cbn.
  clear IH. induction r as [|c' r' IH']; cbn in *; [done|].
  apply andb_true_iff in Hr as [-> Hr]. rewrite orb_true_r. cbn. now apply IH'.
Qed.

Lemma all_chars_rstrip (sp q : ascii -> bool) (s : string) :
  all_chars q (rstrip_with sp s) = true ->
  all_chars (fun c => sp c || q c) s = true.
Proof.
  induction s as [|c r IH]; cbn; [done|].
  destruct (sp c && is_empty (rstrip_with sp r)) eqn:Hc.
  - apply andb_true_iff in Hc as [-> He]. cbn. intros _. apply IH.
    now destruct (rstrip_with sp r).
  - cbn. intros H. apply andb_true_iff in H as [-> Hr].
    rewrite orb_true_r. cbn. now apply IH.
Qed.

Lemma all_chars_mono (p q : ascii -> bool) (s : string) :
  (forall c, p c = true -> q c = true) ->
  all_chars p s = true -> all_chars q s = true.
Proof.
  intros Hpq. induction s as [|c r IH]; cbn; [done|].
  intros H. apply andb_true_iff in H as [Hc Hr].
  now rewrite (Hpq c Hc), IH.
Qed.

Lemma int_body_chars (s : string) :
  (forall acc n, int_body acc s = Some n -> all_chars int_char s = true)
  /\ (forall c r acc n, s = String c r -> int_body acc r = Some n ->
        all_chars int_char r = true).
Proof.
  induction s as [|c r [IH1 IH2]]; split; [done|done| |].
  - intros acc n. cbn. unfold digit_val.
    destruct (between 48 57 (ord c)) eqn:Hd.
    + intros H. unfold int_char at 1. rewrite Hd, orb_true_r. cbn.
      exact (IH1 _ n H).
    + destruct (Ascii.eqb c "_") eqn:Hu; [|done].
      unfold int_char at 1. rewrite Hu, orb_true_r. cbn.
      destruct r as [|c' r']; [done|]. cbn.
      destruct (between 48 57 (ord c')) eqn:Hd'; [|done].
      intros H. unfold int_char at 1. rewrite Hd', orb_true_r. cbn.
      exact (IH2 c' r' _ n eq_refl H).
  - intros c0 r0 acc n [= _ <-]. apply IH1.
Qed.

Lemma int_unsigned_chars (s : string) (n : Z) :
  int_unsigned s = Some n -> all_chars int_char s = true.
Proof.
  destruct s as [|c r]; cbn; [done|]. unfold digit_val.
  destruct (between 48 57 (ord c)) eqn:Hd; [|done].
  intros H. unfold int_char at 1. rewrite Hd, orb_true_r. cbn.
  exact (proj1 (int_body_chars r) _ n H).
Qed.

(** [int] converts only texts made of blanks, signs, digits and
    underscores. *)
Lemma int_of_str_chars (s : string) (n : Z) :
  int_of_str s = Some n -> all_chars int_char s = true.
Proof.
  unfold int_of_str, strip_with. intros H.
  apply (all_chars_mono (fun c => int_space c || (int_space c || int_char c)));
    [intros c; unfold int_char; destruct (int_space c); cbn; auto|].
  apply all_chars_lstrip, all_chars_rstrip.
  destruct (rstrip_with int_space (lstrip_with int_space s)) as [|c r]; [done|].
  destruct (Ascii.eqb c "+") eqn:Hp.
  - cbn. unfold int_char at 1. rewrite Hp, !orb_true_r. cbn.
    now apply (int_unsigned_chars r n).
  - destruct (Ascii.eqb c "-") eqn:Hm.
    + cbn. unfold int_char at 1. rewrite Hm, !orb_true_r. cbn.
      destruct (int_unsigned r) as [m|] eqn:Hr; [|done].
      now apply (int_unsigned_chars r m).
    + now apply (int_unsigned_chars _ n).
Qed.

(** A time without finds that the file gives with any character other than a
    digit, a sign, an underscore or a blank (a colon, a decimal point, a unit)
    is kept as a string by the reader and refused by the check: the check
    raises [ValueError] and leaves everything as it was. *)
Theorem odd_time_wo_finds_raises (self : config) (e : env) (w : world)
    (d : snapshot) (s : string) :
  reads self e = Ok d ->
  d !! "time_wo_finds" = Some (VStr s) ->
  all_chars int_char s = false ->
  check_fuzzer_status self e w = (w, Raise ValueError).
Proof.
  intros Hr Hd Hs. rewrite (check_fuzzer_status_read _ _ d) by done.
  unfold time_wo_finds_of, dict_get. rewrite Hd. cbn.
  destruct (int_of_str s) as [n|] eqn:Hn; [|done].
  apply int_of_str_chars in Hn. congruence.
Qed.

Lemma odd_time_wo_finds_raises_witness :
  check_fuzzer_status sample_config
    (sample_env (Contents ("time_wo_finds: 1.5h" ++ nl)) 5) init
  = (init, Raise ValueError).
Proof.
  apply (odd_time_wo_finds_raises sample_config _ init
           {[ "time_wo_finds" := VStr "1.5h" ]} "1.5h");
    vm_compute; reflexivity.
Defined.

(** A last find that the file gives as a text which is not a number is kept
    as a string, and a check that continues hands it to [localtime]: the
    check raises [TypeError] before it prints, stores or enters anything. *)
Theorem text_last_find_raises (self : config) (e : env) (w : world)
    (d : snapshot) (s : string) :
  reads self e = Ok d ->
  verdict_of self (Some d) = Ok Continue ->
  d !! "last_find" = Some (VStr s) ->
  s <> EmptyString ->
  check_fuzzer_status self e w = (w, Raise TypeError).
Proof.
  intros Hr Hv Hd Hs. rewrite (check_fuzzer_status_read _ _ d) by done.
  unfold verdict_of in Hv.
  destruct (time_wo_finds_of d) as [n|ex]; cbn in Hv; [|done].
  destruct (exceeds self n); [done|].
  apply bind_raise. rewrite report_cases.
  unfold data_row, dict_get. rewrite Hd. cbn.
  now destruct s.
Qed.

Lemma text_last_find_raises_witness :
  check_fuzzer_status sample_config
    (sample_env (Contents ("last_find: 2024-01-01" ++ nl)) 5) init
  = (init, Raise TypeError).
Proof.
  apply (text_last_find_raises sample_config _ init
           {[ "last_find" := VStr "2024-01-01" ]} "2024-01-01");
    try (vm_compute; reflexivity). discriminate.
Defined.

(** ** Runs *)

(** The three ways a check ends. *)
Lemma check_outcomes (self : config) (e : env) (w : world) :
  (exists ex, (check_fuzzer_status self e w).2 = Raise ex)
  \/ (exists d, reads self e = Ok d /\ verdict_of self (Some d) = Ok Stop
                /\ scheduler (check_fuzzer_status self e w).1 = scheduler w)
  \/ ((check_fuzzer_status self e w).2 = Ok tt
      /\ scheduler (check_fuzzer_status self e w).1
         = enqueue {| ev_time := now e + check_interval self; ev_priority := 1 |}
                   (scheduler w)
      /\ killed (check_fuzzer_status self e w).1 = killed w
      /\ forall d, reads self e = Ok d -> verdict_of self (Some d) <> Ok Stop).
Proof.
  destruct (check_fuzzer_status_queue self e w)
    as [(ex & He & _)|[(d & Hd & Hv & Hs)|(Hok & Hs)]].
  - left. by exists ex.
  - right; left. by exists d.
  - right; right. split; [done|]. split; [done|].
    assert (Hns : forall d, reads self e = Ok d ->
                            verdict_of self (Some d) <> Ok Stop).
    { intros d Hd Hv.
      destruct (check_fuzzer_status_queue self e w)
        as [(ex & He & _)|[(d' & _ & _ & Hs')|_]]; [congruence| |].
      - rewrite Hs' in Hs. symmetry in Hs.
        apply (f_equal length) in Hs. rewrite enqueue_length in Hs. lia.
      - rewrite (check_fuzzer_status_read _ _ d) in Hs by done.
        unfold verdict_of in Hv.
        destruct (time_wo_finds_of d) as [n|ex]; cbn in Hv; [|done].
        destruct (exceeds self n); [|done].
        unfold mbind, M_bind, logging in Hs. cbn in Hs.
        destruct (stop_fuzzer_frame e
          {| last_fuzzer_data := last_fuzzer_data w; scheduler := scheduler w;
             logged := logged w ++ [(INFO, MsgExiting n)];
             killed := killed w |}) as [_ Hf].
        rewrite Hf in Hs. cbn in Hs.
        apply (f_equal length) in Hs. rewrite enqueue_length in Hs. lia. }
    split; [|exact Hns]. now apply check_killed_frame.
Qed.

Lemma scheduler_run_going (self : config) (envs : nat -> env) (fuel : nat) :
  forall (k : nat) (w : world) (ev : event),
    scheduler w = [ev] ->
    (scheduler_run self fuel envs k w).2 = Ok false ->
    scheduler (scheduler_run self fuel envs k w).1
    = [match fuel with
       | O => ev
       | S f => {| ev_time := now (envs (k + f)%nat) + check_interval self;
                   ev_priority := 1 |}
       end]
    /\ killed (scheduler_run self fuel envs k w).1 = killed w.
Proof.
  induction fuel as [|f IH]; intros k w ev Hq.
  - destruct w as [l q lg kl]. cbn in Hq. subst q. cbn. done.
  - destruct w as [l q lg kl]. cbn in Hq. subst q.
    cbn [scheduler_run scheduler last_fuzzer_data logged killed].
    set (w' := {| last_fuzzer_data := l; scheduler := []; logged := lg;
                  killed := kl |}).
    pose proof (check_outcomes self (envs k) w') as Ho.
    unfold mbind, M_bind.
    destruct (check_fuzzer_status self (envs k) w') as [w1 [[]|ex]] eqn:Hc;
      cbn in Ho; [|done].
    destruct Ho as [(ex & He)|[(d & _ & _ & Hs)|(_ & Hs & Hk & _)]]; [done| |].
    + destruct w1 as [l1 q1 lg1 kl1]. cbn in Hs. subst q1.
      destruct f; cbn; done.
    + cbn in Hs. intros Hres.
      destruct (IH (S k) w1 _ Hs Hres) as [Hq1 Hk1].
      rewrite Hq1, Hk1, Hk. split; [|done].
      destruct f as [|f']; [now rewrite Nat.add_0_r|].
      now replace (k + S f')%nat with (S k + f')%nat by lia.
Qed.

(** As long as a run goes on, exactly one check is pending, due one interval
    after the clock of the last check made (ten units after the start when
    none was made yet), and no signal has been sent. *)
Theorem going_run_has_one_pending (self : config) (start : env)
    (envs : nat -> env) (fuel : nat) :
  (run self fuel start envs init).2 = Ok false ->
  scheduler (run self fuel start envs init).1
  = [match fuel with
     | O => {| ev_time := now start + 10; ev_priority := 1 |}
     | S f => {| ev_time := now (envs f) + check_interval self;
                 ev_priority := 1 |}
     end]
  /\ killed (run self fuel start envs init).1 = [].
Proof.
  unfold run. run_steps. intros H.
  eapply scheduler_run_going in H; [|reflexivity].
  destruct H as [-> ->]. split; [|done]. now destruct fuel.
Qed.

Lemma going_run_has_one_pending_witness :
  scheduler (run sample_config 1 (sample_env (OpenRaises FileNotFoundError) 0)
               late_file init).1
  = [{| ev_time := 70; ev_priority := 1 |}].
Proof.
  apply (going_run_has_one_pending sample_config
           (sample_env (OpenRaises FileNotFoundError) 0) late_file 1).
  vm_compute. reflexivity.
Defined.




(** ** Numerals *)

Lemma int_body_digit (acc d : Z) (c : ascii) (r : string) :
  digit_val c = Some d -> int_body acc (String c r) = int_body (10 * acc + d) r.
Proof. intros H. cbn. now rewrite H. Qed.

Lemma int_body_numeral_pos (d : Decimal.uint) :
  forall p : positive,
    int_body (Z.pos p) (DecimalString.NilEmpty.string_of_uint d)
    = Some (Z.pos (Pos.of_uint_acc d p)).
Proof.
  induction d as [|d IH|d IH|d IH|d IH|d IH|d IH|d IH|d IH|d IH|d IH];
    intros p; [reflexivity|..];
    cbn [DecimalString.NilEmpty.string_of_uint Pos.of_uint_acc];
    erewrite int_body_digit by reflexivity;
    rewrite <- IH;
    apply (f_equal (fun a => int_body a (DecimalString.NilEmpty.string_of_uint d)));
    set (x := Z.of_N (ord _)); vm_compute in x; subst x; lia.
Qed.

Lemma int_body_numeral (d : Decimal.uint) :
  int_body 0 (DecimalString.NilEmpty.string_of_uint d)
  = Some (Z.of_N (N.of_uint d)).
Proof.
  induction d as [|d IH|d IH|d IH|d IH|d IH|d IH|d IH|d IH|d IH|d IH];
    [reflexivity|exact IH|..];
    cbn [DecimalString.NilEmpty.string_of_uint];
    erewrite int_body_digit by reflexivity;
    apply (int_body_numeral_pos d).
Qed.

Lemma numeral_decimal (d : Decimal.uint) :
  all_chars decimal (DecimalString.NilEmpty.string_of_uint d) = true.
Proof. induction d; cbn; now try rewrite IHd. Qed.

Lemma numeral_shape (d : Decimal.uint) :
  exists c r, DecimalString.NilZero.string_of_uint d = String c r
              /\ decimal c = true
              /\ all_chars decimal r = true
              /\ int_unsigned (DecimalString.NilZero.string_of_uint d)
                 = Some (Z.of_N (N.of_uint d)).
Proof.
  pose proof (int_body_numeral d) as Hb.
  pose proof (numeral_decimal d) as Hd.
  destruct d as [|d|d|d|d|d|d|d|d|d|d];
    [by exists "0"%char, EmptyString|..];
    cbn [DecimalString.NilZero.string_of_uint
         DecimalString.NilEmpty.string_of_uint] in *;
    eexists _, _; (split; [reflexivity|]);
    cbn in Hd; (split; [reflexivity|]); (split; [exact Hd|]);
    exact Hb.
Qed.

(** A numeral is a nonempty text of decimal digits, and [int] reads from it
    the number it stands for. *)
Lemma str_shape (n : N) :
  exists c r, str n = String c r /\ decimal c = true
              /\ all_chars decimal r = true
              /\ int_unsigned (str n) = Some (Z.of_N n).
Proof.
  unfold str. destruct (numeral_shape (N.to_uint n)) as (c & r & H1 & H2 & H3 & H4).
  exists c, r. rewrite DecimalN.Unsigned.of_to in H4. done.
Qed.

(** ** Stripping and splitting texts put together *)

Lemma str_app_nil (s : string) : EmptyString ++ s = s.
Proof. reflexivity. Qed.

Lemma str_app_cons (a : ascii) (l s : string) :
  String a l ++ s = String a (l ++ s).
Proof. reflexivity. Qed.

Lemma lstrip_app_anchor (sp : ascii -> bool) (c : ascii) (l r : string) :
  sp c = false ->
  lstrip_with sp (l ++ String c r) = lstrip_with sp l ++ String c r.
Proof.
  intros Hc. induction l as [|a l IH].
  - rewrite str_app_nil. cbn. now rewrite Hc.
  - rewrite str_app_cons. cbn. now destruct (sp a).
Qed.

Lemma rstrip_app_anchor (sp : ascii -> bool) (c : ascii) (l r : string) :
  sp c = false ->
  rstrip_with sp (l ++ String c r) = l ++ String c (rstrip_with sp r).
Proof.
  intros Hc. induction l as [|a l IH].
  - rewrite !str_app_nil. now apply rstrip_head.
  - rewrite !str_app_cons. cbn [rstrip_with]. rewrite IH.
    destruct l; rewrite ?str_app_nil, ?str_app_cons; cbn;
      now rewrite andb_false_r.
Qed.

Lemma lstrip_spaces (sp : ascii -> bool) (pad s : string) :
  all_chars sp pad = true -> lstrip_with sp (pad ++ s) = lstrip_with sp s.
Proof.
  induction pad as [|a pad IH]; [done|].
  rewrite str_app_cons. cbn.
  intros H. apply andb_true_iff in H as [-> H]. now apply IH.
Qed.

Lemma rstrip_solid (sp : ascii -> bool) (s : string) :
  all_chars (fun c => negb (sp c)) s = true -> rstrip_with sp s = s.
Proof.
  induction s as [|a s IH]; cbn; [done|].
  intros H. apply andb_true_iff in H as [Ha H]. apply negb_true_iff in Ha.
  now rewrite Ha, IH.
Qed.

Lemma contains_app (c : ascii) (l r : string) :
  contains c (l ++ r) = contains c l || contains c r.
Proof.
  induction l as [|a l IH]; [done|].
  rewrite str_app_cons. cbn. now rewrite IH, orb_assoc.
Qed.

Lemma partition_app (c : ascii) (l r : string) :
  contains c l = false -> partition c (l ++ String c r) = Some (l, r).
Proof.
  induction l as [|a l IH].
  - intros _. rewrite str_app_nil. cbn. now rewrite Ascii.eqb_refl.
  - rewrite str_app_cons. cbn.
    intros H. apply orb_false_iff in H as [-> H]. now rewrite IH.
Qed.

Lemma lstrip_idem (sp : ascii -> bool) (s : string) :
  lstrip_with sp (lstrip_with sp s) = lstrip_with sp s.
Proof.
  pose proof (lstrip_head sp s) as H.
  destruct (lstrip_with sp s) as [|c r]; [done|]. now apply lstrip_fixed.
Qed.

(** The code strips the line and then cuts it; that is cutting the line at
    its first colon and stripping the two parts. *)
Lemma parse_line_split (fs : snapshot) (l r : string) :
  contains ":" l = false ->
  parse_line fs (l ++ String ":" r) =
  let value := rstrip_with isspace r in
  if isdigit (strip value)
  then match int_of_str value with
       | Some n => Ok (<[strip l := VInt n]> fs)
       | None => Raise ValueError
       end
  else Ok (<[strip l := VStr (strip value)]> fs).
Proof.
  intros Hl. unfold parse_line.
  rewrite contains_app. cbn [contains]. rewrite Ascii.eqb_refl, orb_true_r.
  assert (Hs : strip (l ++ String ":" r)
               = lstrip_with isspace l ++ String ":" (rstrip_with isspace r)).
  { unfold strip, strip_with.
    rewrite (lstrip_app_anchor isspace ":") by done.
    now rewrite (rstrip_app_anchor isspace ":") by done. }
  rewrite Hs. unfold split1. rewrite partition_app.
  2:{ destruct (contains ":" (lstrip_with isspace l)) eqn:Hc; [|done].
      apply contains_lstrip_inv in Hc. congruence. }
  cbn. replace (strip (lstrip_with isspace l)) with (strip l)
    by (unfold strip, strip_with; now rewrite lstrip_idem).
  destruct (isdigit (strip (rstrip_with isspace r))); [|done].
  cbn. now destruct (int_of_str (rstrip_with isspace r)).
Qed.

Lemma decimal_solid (c : ascii) :
  decimal c = true -> isspace c = false /\ int_space c = false
                      /\ isdigit_char c = true.
Proof.
  unfold decimal, isspace, int_space, isdigit_char, between.
  intros H. apply andb_true_iff in H as [H1 H2]. rewrite H1, H2.
  apply N.leb_le in H1, H2.
  assert (E1 : (ord c <=? 13)%N = false) by (apply N.leb_gt; lia).
  assert (E2 : (ord c <=? 32)%N = false) by (apply N.leb_gt; lia).
  assert (E3 : (ord c =? 32)%N = false) by (apply N.eqb_neq; lia).
  assert (E4 : (ord c =? 133)%N = false) by (apply N.eqb_neq; lia).
  assert (E5 : (ord c =? 160)%N = false) by (apply N.eqb_neq; lia).
  rewrite E1, E2, E3, E4, E5, !andb_false_r. done.
Qed.

Lemma all_decimal_solid (s : string) :
  all_chars decimal s = true ->
  all_chars (fun c => negb (isspace c)) s = true
  /\ all_chars (fun c => negb (int_space c)) s = true
  /\ all_chars isdigit_char s = true.
Proof.
  induction s as [|c s IH]; cbn; [done|].
  intros H. apply andb_true_iff in H as [Hc H].
  destruct (decimal_solid c Hc) as (-> & -> & ->).
  destruct (IH H) as (-> & -> & ->). done.
Qed.

Lemma str_decimal (n : N) : all_chars decimal (str n) = true.
Proof.
  destruct (str_shape n) as (c & r & -> & Hc & Hr & _). cbn. now rewrite Hc, Hr.
Qed.

(** Blanks before a text without blanks are all that stripping removes. *)
Lemma strip_padded_solid (sp : ascii -> bool) (pad s : string) :
  all_chars sp pad = true ->
  all_chars (fun c => negb (sp c)) s = true ->
  strip_with sp (pad ++ s) = s.
Proof.
  intros Hp Hs. unfold strip_with. rewrite lstrip_spaces by done.
  destruct s as [|c r]; [done|].
  cbn in Hs. apply andb_true_iff in Hs as [Hc Hr]. apply negb_true_iff in Hc.
  rewrite lstrip_fixed by done. apply rstrip_solid. cbn. now rewrite Hc, Hr.
Qed.

Lemma str_app_assoc (a b c : string) : (a ++ b) ++ c = a ++ (b ++ c).
Proof.
  induction a as [|x a IH]; [done|]. rewrite !str_app_cons. now rewrite IH.
Qed.

Lemma str_app_nil_r (s : string) : s ++ EmptyString = s.
Proof. induction s as [|x s IH]; [done|]. rewrite str_app_cons. now rewrite IH. Qed.

Lemma rstrip_spaces (sp : ascii -> bool) (pad : string) :
  all_chars sp pad = true -> rstrip_with sp pad = EmptyString.
Proof.
  induction pad as [|a pad IH]; cbn; [done|].
  intros H. apply andb_true_iff in H as [-> H]. now rewrite IH.
Qed.

Lemma rstrip_app_spaces (sp : ascii -> bool) (s pad : string) :
  all_chars sp pad = true -> rstrip_with sp (s ++ pad) = rstrip_with sp s.
Proof.
  intros Hp. induction s as [|a s IH].
  - rewrite str_app_nil. now apply rstrip_spaces.
  - rewrite str_app_cons. cbn. now rewrite IH.
Qed.

Lemma contains_spaces (sp : ascii -> bool) (c : ascii) (pad : string) :
  sp c = false -> all_chars sp pad = true -> contains c pad = false.
Proof.
  intros Hc. induction pad as [|a pad IH]; cbn; [done|].
  intros H. apply andb_true_iff in H as [Ha H]. rewrite (IH H).
  destruct (Ascii.eqb_spec a c) as [->|_]; [congruence|done].
Qed.

(** A stripped text has no blank at either end. *)
Lemma stripped_ends (sp : ascii -> bool) (s : string) :
  strip_with sp s = s -> lstrip_with sp s = s /\ rstrip_with sp s = s.
Proof.
  unfold strip_with. intros H.
  assert (Hl : lstrip_with sp s = s).
  { destruct s as [|c r]; [done|].
    pose proof (lstrip_head sp (String c r)) as Hh.
    destruct (lstrip_with sp (String c r)) as [|c0 r0] eqn:Ht; [done|].
    rewrite (rstrip_head sp c0 r0 Hh) in H. injection H as -> _.
    now rewrite <- Ht, lstrip_fixed. }
  split; [done|]. now rewrite Hl in H.
Qed.

(** Blanks around a stripped text are all that stripping removes. *)
Lemma strip_padded (sp : ascii -> bool) (pad s pad' : string) :
  strip_with sp s = s ->
  all_chars sp pad = true -> all_chars sp pad' = true ->
  strip_with sp (pad ++ s ++ pad') = s
  /\ (s <> EmptyString -> rstrip_with sp (pad ++ s ++ pad') = pad ++ s).
Proof.
  intros Hs Hp Hp'. destruct (stripped_ends sp s Hs) as [Hl Hr].
  unfold strip_with. rewrite lstrip_spaces by done.
  destruct s as [|c r].
  - rewrite str_app_nil. split; [|done].
    rewrite <- (str_app_nil_r pad'), lstrip_spaces by done. done.
  - pose proof (lstrip_head sp (String c r)) as Hc. rewrite Hl in Hc.
    rewrite str_app_cons, lstrip_fixed by done.
    rewrite <- str_app_cons, rstrip_app_spaces by done.
    split; [done|]. intros _.
    rewrite <- str_app_assoc, rstrip_app_spaces by done.
    rewrite rstrip_app_anchor by done. now rewrite <- (rstrip_head sp c r Hc), Hr.
Qed.

(** A line made of a stripped key, blanks, a colon, blanks, a stripped value
    and blanks: what the loop of the reader does with it. *)
Lemma parse_line_padded (fs : snapshot) (key pad pad1 v pad2 : string) :
  strip key = key -> contains ":" key = false ->
  strip v = v ->
  all_chars isspace pad = true ->
  all_chars isspace pad1 = true ->
  all_chars isspace pad2 = true ->
  parse_line fs (key ++ pad ++ String ":" (pad1 ++ v ++ pad2)) =
  if isdigit v
  then match int_of_str (pad1 ++ v) with
       | Some n => Ok (<[key := VInt n]> fs)
       | None => Raise ValueError
       end
  else Ok (<[key := VStr v]> fs).
Proof.
  intros Hk Hc Hv Hp Hp1 Hp2.
  rewrite <- str_app_assoc, parse_line_split.
  2:{ rewrite contains_app, Hc. now apply (contains_spaces isspace). }
  assert (Hkey : strip (key ++ pad) = key).
  { rewrite <- (str_app_nil (key ++ pad)).
    now apply (strip_padded isspace EmptyString key pad). }
  cbv zeta. rewrite Hkey.
  destruct (strip_padded isspace pad1 v pad2 Hv Hp1 Hp2) as [Hs Hr].
  destruct v as [|c r].
  - rewrite str_app_nil, rstrip_app_spaces, rstrip_spaces by done. done.
  - rewrite Hr by done.
    destruct (strip_padded isspace pad1 (String c r) EmptyString Hv Hp1 eq_refl)
      as [H0 _].
    rewrite str_app_nil_r in H0. unfold strip. now rewrite H0.
Qed.

(** What the fuzzer writes is what the reader stores. A line with a key, a
    colon and the decimal numeral of [n], with blanks around the key and
    before the numeral as the fuzzer pads its lines, stores the integer [n]
    under the key, for every numeral of at most 4300 digits, which [int]
    converts with the interpreter's default setting. *)
Theorem numeral_line_read_back (fs : snapshot) (key pad pad1 : string) (n : N) :
  strip key = key -> contains ":" key = false ->
  all_chars isspace pad = true ->
  all_chars int_space pad1 = true ->
  (String.length (str n) <= int_max_str_digits)%nat ->
  parse_line fs (key ++ pad ++ String ":" (pad1 ++ str n ++ nl))
  = Ok (<[key := VInt (Z.of_N n)]> fs).
Proof.
  intros Hk Hc Hp Hp1 _.
  destruct (all_decimal_solid (str n) (str_decimal n)) as (Hsp & Hisp & Hdig).
  assert (Hp1' : all_chars isspace pad1 = true)
    by (apply (all_chars_mono int_space); [apply int_space_isspace|done]).
  rewrite parse_line_padded; try done.
  2:{ rewrite <- (str_app_nil (str n)). now apply strip_padded_solid. }
  destruct (str_shape n) as (c & r & Hn & Hdc & _ & Hint).
  assert (Hd : isdigit (str n) = true).
  { unfold isdigit. rewrite Hdig. now rewrite Hn. }
  rewrite Hd. unfold int_of_str.
  rewrite (strip_padded_solid int_space pad1 (str n)) by done.
  rewrite Hn in *.
  destruct (Ascii.eqb_spec c "+") as [->|_]; [done|].
  destruct (Ascii.eqb_spec c "-") as [->|_]; [done|].
  now rewrite Hint.
Qed.

Lemma numeral_line_read_back_witness :
  parse_line ∅ ("execs_done        : 1205" ++ nl)
  = Ok {[ "execs_done" := VInt 1205 ]}.
Proof.
  apply (numeral_line_read_back ∅ "execs_done" "        " " " 1205);
    try reflexivity.
  unfold int_max_str_digits. cbn. lia.
Defined.

(** A value that is not a number is kept as it is written, colons and inner
    blanks included, without the blanks around it. *)
Theorem text_line_read_back (fs : snapshot) (key pad pad1 v pad2 : string) :
  strip key = key -> contains ":" key = false ->
  strip v = v -> isdigit v = false ->
  all_chars isspace pad = true ->
  all_chars isspace pad1 = true ->
  all_chars isspace pad2 = true ->
  parse_line fs (key ++ pad ++ String ":" (pad1 ++ v ++ pad2))
  = Ok (<[key := VStr v]> fs).
Proof.
  intros Hk Hc Hv Hd Hp Hp1 Hp2.
  rewrite parse_line_padded by done. now rewrite Hd.
Qed.

Lemma text_line_read_back_witness :
  parse_line ∅ ("command_line      : afl-fuzz -i in -o out -- ./t @@" ++ nl)
  = Ok {[ "command_line" := VStr "afl-fuzz -i in -o out -- ./t @@" ]}.
Proof.
  apply (text_line_read_back ∅ "command_line" "      " " "
           "afl-fuzz -i in -o out -- ./t @@" nl); reflexivity.
Defined.

(** ** From the process search to the signals *)

Lemma words_from_solid (s : string) :
  forall cur r,
    all_chars (fun c => negb (isspace c)) s = true ->
    words_from cur (s ++ String LF r) =
    if is_empty (cur ++ s) then words_from EmptyString r
    else (cur ++ s) :: words_from EmptyString r.
Proof.
  induction s as [|c s IH]; intros cur r Hs.
  - rewrite str_app_nil, str_app_nil_r. reflexivity.
  - cbn in Hs. apply andb_true_iff in Hs as [Hc Hs]. apply negb_true_iff in Hc.
    rewrite str_app_cons. cbn [words_from]. rewrite Hc.
    rewrite (IH _ r Hs), str_app_assoc. reflexivity.
Qed.

Lemma split_ws_pgrep_lines (pids : list N) :
  split_ws (pgrep_lines pids) = map str pids.
Proof.
  unfold split_ws. induction pids as [|p pids IH]; [done|].
  cbn [pgrep_lines fold_right map].
  destruct (all_decimal_solid (str p) (str_decimal p)) as (Hsp & _).
  rewrite (words_from_solid (str p) EmptyString _ Hsp), str_app_nil.
  destruct (str_shape p) as (c & r & -> & _). cbn [is_empty].
  f_equal. exact IH.
Qed.

(** [int] reads a numeral back. *)
Lemma int_of_str_str (n : N) : int_of_str (str n) = Some (Z.of_N n).
Proof.
  destruct (all_decimal_solid (str n) (str_decimal n)) as (_ & Hisp & _).
  unfold int_of_str.
  rewrite <- (str_app_nil (str n)) at 1.
  rewrite (strip_padded_solid int_space EmptyString (str n)) by done.
  destruct (str_shape n) as (c & r & Hn & Hdc & _ & Hint). rewrite Hn in *.
  destruct (Ascii.eqb_spec c "+") as [->|_]; [done|].
  destruct (Ascii.eqb_spec c "-") as [->|_]; [done|].
  exact Hint.
Qed.

Lemma mapM_int_numerals (pids : list N) :
  mapM (fun pid => py_int (VStr pid)) (map str pids) = Ok (map Z.of_N pids).
Proof.
  induction pids as [|p pids IH]; [done|].
  cbn [map mapM]. cbn [py_int] in IH |- *. rewrite int_of_str_str. cbn.
  now rewrite IH.
Qed.

(** Every process the search lists is stopped. When the search exits with
    status 0 and prints the identifiers [pids], one numeral a line, these are
    the identifiers located, in this order; and when every send succeeds,
    each of them is logged and receives one [SIGTERM]. *)
Theorem listed_processes_are_stopped (e : env) (pids : list N) (w : world) :
  pgrep e = Exited 0 (pgrep_lines pids) ->
  (forall p, In p pids -> os_kill e (Z.of_N p) = None) ->
  get_afl_fuzz_pids e = Ok (map Z.of_N pids)
  /\ stop_fuzzer e w =
     ({| last_fuzzer_data := last_fuzzer_data w;
         scheduler := scheduler w;
         logged := logged w
                   ++ map (fun p => (INFO, MsgStopping (Z.of_N p))) pids;
         killed := killed w ++ map (fun p => (Z.of_N p, SIGTERM)) pids |},
      Ok tt).
Proof.
  intros Hp Hk.
  assert (Hg : get_afl_fuzz_pids e = Ok (map Z.of_N pids)).
  { unfold get_afl_fuzz_pids. rewrite Hp. cbn.
    now rewrite split_ws_pgrep_lines, mapM_int_numerals. }
  split; [exact Hg|].
  unfold stop_fuzzer. rewrite lift_bind, Hg.
  rewrite stop_each_delivered.
  - now rewrite !map_map.
  - intros pid Hin. apply in_map_iff in Hin as (p & <- & Hin). now apply Hk.
Qed.

Lemma listed_processes_are_stopped_witness :
  killed (stop_fuzzer (sample_env (Contents EmptyString) 0) init).1
  = [(12, SIGTERM); (34, SIGTERM)].
Proof.
  destruct (listed_processes_are_stopped (sample_env (Contents EmptyString) 0)
              [12%N; 34%N] init) as [_ ->]; reflexivity.
Defined.

(** ** A check that stops *)

(** The whole of a stopping check. When the snapshot read has a time without
    finds above the threshold, the search returns [pids] and every send
    succeeds, the check logs the stop notice and each identifier, sends
    [SIGTERM] to each, returns, and leaves the stored snapshot and the queue
    as they were: no next check is entered. *)
Theorem stopping_check (self : config) (e : env) (w : world) (d : snapshot)
    (n : Z) (pids : list Z) :
  reads self e = Ok d ->
  time_wo_finds_of d = Ok n ->
  max_time_without_finds self < n ->
  get_afl_fuzz_pids e = Ok pids ->
  (forall pid, In pid pids -> os_kill e pid = None) ->
  check_fuzzer_status self e w =
  ({| last_fuzzer_data := last_fuzzer_data w;
      scheduler := scheduler w;
      logged := logged w ++ (INFO, MsgExiting n)
                            :: map (fun pid => (INFO, MsgStopping pid)) pids;
      killed := killed w ++ map (fun pid => (pid, SIGTERM)) pids |}, Ok tt).
Proof.
  intros Hr Ht Hn Hg Hk.
  rewrite (check_fuzzer_status_read _ _ d), Ht by done.
  unfold exceeds. destruct (Z.ltb_spec (max_time_without_finds self) n); [|lia].
  unfold mbind at 1, M_bind at 1, logging. cbn.
  unfold stop_fuzzer. rewrite lift_bind, Hg.
  rewrite stop_each_delivered by done. cbn. now rewrite <- app_assoc.
Qed.

Lemma stopping_check_witness :
  let e := sample_env (Contents ("time_wo_finds: 4000" ++ nl)) 5 in
  check_fuzzer_status sample_config e init =
  ({| last_fuzzer_data := Some ∅;
      scheduler := [];
      logged := [(INFO, MsgExiting 4000); (INFO, MsgStopping 12);
                 (INFO, MsgStopping 34)];
      killed := [(12, SIGTERM); (34, SIGTERM)] |}, Ok tt).
Proof.
  intros e.
  apply (stopping_check sample_config e init
           {[ "time_wo_finds" := VInt 4000 ]} 4000 [12; 34]);
    try (vm_compute; reflexivity).
Defined.

(** ** Pending checks *)

(** Whatever the checks read and however the run ends, by a stop, by an
    exception or not yet, at most one check is pending in the queue. *)
Theorem pending_at_most_one (self : config) (start : env) (envs : nat -> env)
    (fuel : nat) :
  (length (scheduler (run self fuel start envs init).1) <= 1)%nat.
Proof.
  unfold run. run_steps. apply scheduler_run_pending. cbn. lia.
Qed.

(** ** Line ends *)

Lemma readlines_crlf (text : string) :
  contains CR text = false -> readlines (crlf text) = readlines text.
Proof.
  induction text as [|c r IH]; [done|].
  cbn [contains]. intros H. apply orb_false_iff in H as [Hc Hr].
  specialize (IH Hr). cbn [crlf].
  destruct (Ascii.eqb c LF) eqn:Hlf.
  - cbn [readlines]. rewrite Hlf.
    change (Ascii.eqb CR LF) with false. rewrite Ascii.eqb_refl.
    change (Ascii.eqb LF LF) with true. cbn iota. now rewrite IH.
  - cbn [readlines]. now rewrite Hlf, Hc, IH.
Qed.

(** A statistics file written with carriage return, line feed at the end of
    its lines is read as the same file written with line feeds. *)
Theorem crlf_file_reads_same (text : string) :
  contains CR text = false ->
  read_stats (Contents (crlf text)) = read_stats (Contents text).
Proof. intros H. cbn. now rewrite readlines_crlf. Qed.

Lemma crlf_file_reads_same_witness :
  crlf ("last_find: 17" ++ nl) = "last_find: 17" ++ String CR nl
  /\ read_stats (Contents (crlf ("last_find: 17" ++ nl)))
     = Ok {[ "last_find" := VInt 17 ]}.
Proof.
  split; [reflexivity|].
  rewrite (crlf_file_reads_same ("last_find: 17" ++ nl)) by reflexivity.
  vm_compute. reflexivity.
Defined.

(** ** The text of the table *)

Lemma str_length_app (a b : string) :
  String.length (a ++ b) = (String.length a + String.length b)%nat.
Proof.
  induction a as [|x a IH]; [done|]. rewrite str_app_cons. cbn. now rewrite IH.
Qed.

Lemma blanks_length (k : nat) :
  String.length (string_of_list_ascii (repeat " "%char k)) = k.
Proof. induction k as [|k IH]; [done|]. cbn. now rewrite IH. Qed.

Lemma ljust_length (w : nat) (s : string) :
  String.length (ljust w s) = Nat.max w (String.length s).
Proof. unfold ljust. rewrite str_length_app, blanks_length. lia. Qed.

Lemma table_line_length (c1 c2 c3 c4 c5 c6 : string) :
  String.length (table_line c1 c2 c3 c4 c5 c6)
  = (19 + Nat.max 20 (String.length c1) + Nat.max 20 (String.length c2)
     + Nat.max 13 (String.length c3) + Nat.max 13 (String.length c4)
     + Nat.max 11 (String.length c5) + Nat.max 13 (String.length c6))%nat.
Proof.
  unfold table_line. rewrite !str_length_app, !ljust_length. cbn. lia.
Qed.

(** The bars of a data row stand under those of the header exactly when each
    of its six texts fits its column: the row is then as long as the header,
    109 characters. A text wider than its column is not cut: the row gets
    longer. *)
Theorem row_aligned_iff_fits (strftime : Z -> string) (r : row) :
  String.length header_text = 109%nat
  /\ (String.length header_text <= String.length (row_text strftime r))%nat
  /\ (String.length (row_text strftime r) = String.length header_text <->
      (String.length (strftime (curr_time r)) <= 20
       /\ String.length (stamp_text strftime (last_found r)) <= 20
       /\ String.length (cell_text (corpus r)) <= 13
       /\ String.length (cell_text (crashes r)) <= 13
       /\ String.length (cell_text (hangs r)) <= 11
       /\ String.length (cell_text (execs r)) <= 13)%nat).
Proof.
  assert (Hh : String.length header_text = 109%nat) by reflexivity.
  rewrite Hh. unfold row_text. rewrite table_line_length.
  split; [done|]. split; lia.
Qed.

Lemma without_commas_group (s : string) :
  forall k, all_chars decimal s = true -> without_commas (group_from k s) = s.
Proof.
  induction s as [|c s IH]; intros k; [done|]. cbn [all_chars].
  intros H. apply andb_true_iff in H as [Hc Hs].
  assert (Hcomma : Ascii.eqb c "," = false).
  { destruct (Ascii.eqb_spec c ","%char) as [->|_]; [done|done]. }
  destruct k as [|k]; cbn; now rewrite Hcomma, IH.
Qed.

Lemma int_of_str_minus (n : N) :
  int_of_str (String "-" (str n)) = Some (- Z.of_N n).
Proof.
  destruct (all_decimal_solid (str n) (str_decimal n)) as (_ & Hisp & _).
  unfold int_of_str.
  rewrite <- (str_app_nil (String "-" (str n))).
  assert (Hm : all_chars (fun c => negb (int_space c)) (String "-" (str n))
               = true) by (cbn [all_chars]; now rewrite Hisp).
  rewrite (strip_padded_solid int_space EmptyString _ eq_refl Hm).
  cbn [Ascii.eqb]. change (Ascii.eqb "-" "+") with false.
  change (Ascii.eqb "-" "-") with true. cbn iota.
  destruct (str_shape n) as (c & r & Hn & _ & _ & Hint).
  now rewrite Hint.
Qed.

(** A count printed with thousands separators loses nothing: without its
    commas the text is the numeral of the count, and [int] reads the count
    back from it. *)
Theorem grouped_count_reads_back (n : Z) :
  without_commas (format_grouped n)
  = (if n <? 0 then String "-" (str (Z.abs_N n)) else str (Z.abs_N n))
  /\ int_of_str (without_commas (format_grouped n)) = Some n.
Proof.
  assert (H : without_commas (format_grouped n)
              = if n <? 0 then String "-" (str (Z.abs_N n)) else str (Z.abs_N n)).
  { unfold format_grouped. cbv zeta.
    destruct (n <? 0); cbn [without_commas];
      change (Ascii.eqb "-" ",") with false; cbn iota;
      now rewrite (without_commas_group _ _ (str_decimal _)). }
  split; [exact H|]. rewrite H.
  destruct (Z.ltb_spec n 0).
  - rewrite int_of_str_minus. f_equal. lia.
  - rewrite int_of_str_str. f_equal. lia.
Qed.
